(** * fuguang-translator: transcript reconciliation and streaming back ends

    A shallow embedding of the core of [float_translator]:
    - [app.py]: [ApplicationController.add_history_entry] and
      [_longest_overlap] (the transcript reconciler);
    - [translation.py]: [DashScopeRealtimeBackend], [MockTranslatorBackend]
      and [TranslationWorker.run];
    - [audio.py]: [SystemAudioCapture._float_to_pcm16].

    Python [str] values are sequences of Unicode code points, [bytes] values
    are sequences of octets, exceptions are an explicit result type, and the
    mutable attributes of each object are threaded as a record. *)

From Stdlib Require Import String Ascii.
From Stdlib Require Import List Bool Arith NArith ZArith Lia.
From Stdlib Require Import Floats.SpecFloat.
From Stdlib Require DecimalN DecimalPos DecimalFacts.
Import ListNotations.

Set Implicit Arguments.
Set Warnings "-register-all".

(* ====================================================================== *)
(** ** Python strings *)
(* ====================================================================== *)

Module PyStr.

(** A Python [str] is a sequence of code points. *)
Definition char := N.
Definition str := list char.

(** ASCII literals. *)
Definition lit (s : string) : str := map N_of_ascii (list_ascii_of_string s).

Definition LF : char := 10%N.

Fixpoint str_eqb (a b : str) : bool :=
  match a, b with
  | [], [] => true
  | x :: a', y :: b' => N.eqb x y && str_eqb a' b'
  | _, _ => false
  end.

(** [bool(s)]: a string is truthy when it is not empty. *)
Definition truthy (s : str) : bool :=
  match s with [] => false | _ :: _ => true end.

(** The code points removed by [str.strip()] (Py_UNICODE_ISSPACE). *)
Definition is_space (c : char) : bool :=
  ((9 <=? c) && (c <=? 13) || (28 <=? c) && (c <=? 32)
   || (c =? 133) || (c =? 160) || (c =? 5760)
   || (8192 <=? c) && (c <=? 8202)
   || (c =? 8232) || (c =? 8233) || (c =? 8239) || (c =? 8287)
   || (c =? 12288))%N.

Fixpoint lstrip (s : str) : str :=
  match s with
  | [] => []
  | c :: s' => if is_space c then lstrip s' else s
  end.

Definition rstrip (s : str) : str := List.rev (lstrip (List.rev s)).

(** [s.strip()] *)
Definition strip (s : str) : str := rstrip (lstrip s).

(** [s.startswith(p)] *)
Fixpoint startswith (s p : str) {struct p} : bool :=
  match p, s with
  | [], _ => true
  | _ :: _, [] => false
  | y :: p', x :: s' => N.eqb x y && startswith s' p'
  end.

(** [s[-n:]]; for [n = 0] Python's [s[-0:]] is the whole string. *)
Definition last_chars (n : nat) (s : str) : str :=
  match n with
  | 0 => s
  | S _ => skipn (length s - n) s
  end.

(** [s.endswith(p)] *)
Definition endswith (s p : str) : bool :=
  (length p <=? length s) && str_eqb (skipn (length s - length p) s) p.

(** [s[n:]] for [n >= 0]. *)
Definition from_index (n : nat) (s : str) : str := skipn n s.

End PyStr.
Import PyStr.

(* ====================================================================== *)
(** ** app.py: the transcript reconciler *)
(* ====================================================================== *)

(** The calls [add_history_entry] makes on the main window (the window
    itself is a GUI collaborator). *)
Inductive window_call : Type :=
| set_transcript (text : str)
| append_transcript (text : str).

(** The attributes of [ApplicationController] that the reconciler touches. *)
Record ApplicationController : Type := mkController {
  _transcript_text : str;
  _is_streaming : bool
}.

Definition with_transcript (self : ApplicationController) (t : str)
  : ApplicationController :=
  {| _transcript_text := t; _is_streaming := _is_streaming self |}.

(** The loop of [_longest_overlap]: [for size in range(size, 0, -1)]. *)
Fixpoint overlap_scan (previous current : str) (size : nat) : nat :=
  match size with
  | 0 => 0
  | S size' =>
      if startswith current (last_chars size previous) then size
      else overlap_scan previous current size'
  end.

Definition _longest_overlap (previous current : str) : nat :=
  let max_len := Nat.min (length previous) (length current) in
  overlap_scan previous current max_len.

(** [add_history_entry]: the new controller and the window calls made, in
    order. *)
Definition add_history_entry (self : ApplicationController) (text : str)
  : ApplicationController * list window_call :=
  let normalized := strip text in
  if negb (truthy normalized) then (self, [])
  else if negb (truthy (_transcript_text self)) then
    let self1 := with_transcript self normalized in
    (self1, [set_transcript (_transcript_text self1)])
  else if str_eqb normalized (_transcript_text self) then (self, [])
  else if startswith normalized (_transcript_text self) then
    let addition := from_index (length (_transcript_text self)) normalized in
    if truthy addition
    then (with_transcript self normalized, [append_transcript addition])
    else (self, [])
  else if endswith (_transcript_text self) normalized then (self, [])
  else
    let overlap := _longest_overlap (_transcript_text self) normalized in
    if 0 <? overlap then
      let addition := from_index overlap normalized in
      if truthy addition
      then (with_transcript self (_transcript_text self ++ addition),
            [append_transcript addition])
      else (self, [])
    else
      let separator :=
        if endswith (_transcript_text self) [LF]
           || negb (truthy (_transcript_text self))
        then [] else [LF] in
      let addition := separator ++ normalized in
      (with_transcript self (_transcript_text self ++ addition),
       [append_transcript addition]).

(** [_reset_transcript_cache] and [_handle_transcript_modified]: the
    caller-initiated clear and edit. *)
Definition _reset_transcript_cache (self : ApplicationController)
  : ApplicationController := with_transcript self [].

Definition _handle_transcript_modified (self : ApplicationController)
  (text : str) : ApplicationController := with_transcript self text.

(** A run of reconciliation calls, one per fragment. *)
Fixpoint feed (self : ApplicationController) (fragments : list str)
  : ApplicationController :=
  match fragments with
  | [] => self
  | f :: rest => feed (fst (add_history_entry self f)) rest
  end.

(** The text handed to the display by a list of window calls. *)
Definition increment (calls : list window_call) : str :=
  concat (map (fun c => match c with
                        | set_transcript t => t
                        | append_transcript t => t
                        end) calls).

(** Specification-side vocabulary. *)
Definition is_prefix (p s : str) : Prop := exists t, s = p ++ t.
Definition is_suffix (p s : str) : Prop := exists t, s = t ++ p.

(** The suffix of [P] of length [k] is a prefix of [F]. *)
Definition overlaps (P F : str) (k : nat) : Prop :=
  k <= length P /\ is_prefix (skipn (length P - k) P) F.

(** [k] is the longest overlap: the greatest size in
    [1 .. min(|P|,|F|)] with [overlaps], or 0 when there is none. *)
Definition longest_overlap (P F : str) (k : nat) : Prop :=
  (k = 0 \/ (1 <= k /\ overlaps P F k)) /\
  forall j, k < j -> j <= Nat.min (length P) (length F) -> ~ overlaps P F j.

(* ====================================================================== *)
(** ** Python values, exceptions and results *)
(* ====================================================================== *)

(** [bytes] *)
Definition bytes := list Byte.byte.

(** The values [json.loads] produces. A [dict] built by [json.loads] has
    string keys; it is kept as an association list read from the front. *)
Inductive pyval : Type :=
| PyNone
| PyBool (b : bool)
| PyInt (z : Z)
| PyFloat (f : spec_float)
| PyStr (s : str)
| PyList (items : list pyval)
| PyDict (fields : list (str * pyval)).

(** Exceptions. Those raised by the interpreter keep the offending object
    instead of a version-dependent message. *)
Inductive exn : Type :=
| RuntimeError (msg : str)
| AttributeError (obj : pyval) (attr : str)
| TypeError (obj : pyval)
| ZeroDivisionError
| JSONDecodeError (payload : str)
| WebSocketException (msg : str)
| OSError (msg : str).

Inductive result (A : Type) : Type :=
| Ok (a : A)
| Raise (e : exn).
Arguments Ok {A} a.
Arguments Raise {A} e.

Definition rbind {A B} (r : result A) (k : A -> result B) : result B :=
  match r with
  | Ok a => k a
  | Raise e => Raise e
  end.

Notation "x <- r ;; k" := (rbind r (fun x => k))
  (at level 61, r at next level, right associativity).

(** [bool(v)] *)
Definition py_truthy (v : pyval) : bool :=
  match v with
  | PyNone => false
  | PyBool b => b
  | PyInt z => negb (Z.eqb z 0)
  | PyFloat f => match f with S754_zero _ => false | _ => true end
  | PyStr s => truthy s
  | PyList l => match l with [] => false | _ => true end
  | PyDict d => match d with [] => false | _ => true end
  end.

(** [a or b] *)
Definition py_or (a b : pyval) : pyval := if py_truthy a then a else b.

Fixpoint assoc (d : list (str * pyval)) (k : str) : option pyval :=
  match d with
  | [] => None
  | (k', v) :: d' => if str_eqb k' k then Some v else assoc d' k
  end.

(** [obj.get(k)]: only a [dict] has the method. *)
Definition py_get (obj : pyval) (k : str) : result pyval :=
  match obj with
  | PyDict d => Ok (match assoc d k with Some v => v | None => PyNone end)
  | _ => Raise (AttributeError obj (lit "get"))
  end.

(** [isinstance(v, dict)] *)
Definition is_dict (v : pyval) : bool :=
  match v with PyDict _ => true | _ => false end.

(** [v == s] for a string literal [s]. *)
Definition eq_str (v : pyval) (s : str) : bool :=
  match v with PyStr t => str_eqb t s | _ => false end.

(** [needle in s] on strings. *)
Fixpoint contains (s needle : str) : bool :=
  startswith s needle ||
  match s with
  | [] => false
  | _ :: s' => contains s' needle
  end.

(** Decimal rendering of a non-negative [int], as an f-string does. *)
Fixpoint uint_chars (u : Decimal.uint) : str :=
  match u with
  | Decimal.Nil => []
  | Decimal.D0 u' => 48%N :: uint_chars u'
  | Decimal.D1 u' => 49%N :: uint_chars u'
  | Decimal.D2 u' => 50%N :: uint_chars u'
  | Decimal.D3 u' => 51%N :: uint_chars u'
  | Decimal.D4 u' => 52%N :: uint_chars u'
  | Decimal.D5 u' => 53%N :: uint_chars u'
  | Decimal.D6 u' => 54%N :: uint_chars u'
  | Decimal.D7 u' => 55%N :: uint_chars u'
  | Decimal.D8 u' => 56%N :: uint_chars u'
  | Decimal.D9 u' => 57%N :: uint_chars u'
  end.

Definition dec (n : N) : str := uint_chars (N.to_uint n).

(** [base64.b64encode(b).decode("ascii")] (RFC 4648, standard alphabet,
    padded). *)
Definition b64_char (n : N) : char :=
  (if n <? 26 then 65 + n
   else if n <? 52 then 97 + (n - 26)
   else if n <? 62 then 48 + (n - 52)
   else if n =? 62 then 43 else 47)%N.

Definition PAD : char := 61%N.

Fixpoint b64encode (b : bytes) : str :=
  match b with
  | [] => []
  | [x] =>
      let n := (Byte.to_N x * 65536)%N in
      [b64_char (n / 262144); b64_char ((n / 4096) mod 64); PAD; PAD]
  | [x; y] =>
      let n := (Byte.to_N x * 65536 + Byte.to_N y * 256)%N in
      [b64_char (n / 262144); b64_char ((n / 4096) mod 64);
       b64_char ((n / 64) mod 64); PAD]
  | x :: y :: z :: rest =>
      let n := (Byte.to_N x * 65536 + Byte.to_N y * 256 + Byte.to_N z)%N in
      b64_char (n / 262144) :: b64_char ((n / 4096) mod 64)
      :: b64_char ((n / 64) mod 64) :: b64_char (n mod 64)
      :: b64encode rest
  end.

(** The inverse alphabet and decoder, used to state that the encoding is
    reversible. *)
Definition b64_value (c : char) : N :=
  (if (65 <=? c) && (c <=? 90) then c - 65
   else if (97 <=? c) && (c <=? 122) then c - 97 + 26
   else if (48 <=? c) && (c <=? 57) then c - 48 + 52
   else if c =? 43 then 62 else 63)%N.

Definition byte_of (n : N) : Byte.byte :=
  match Byte.of_N (n mod 256) with
  | Some b => b
  | None => Byte.x00
  end.

Fixpoint b64decode (s : str) : bytes :=
  match s with
  | a :: b :: c :: d :: rest =>
      let n := (b64_value a * 262144 + b64_value b * 4096)%N in
      if (c =? PAD)%N then [byte_of (n / 65536)]
      else
        let n := (n + b64_value c * 64)%N in
        if (d =? PAD)%N then [byte_of (n / 65536); byte_of (n / 256)]
        else
          let n := (n + b64_value d)%N in
          byte_of (n / 65536) :: byte_of (n / 256) :: byte_of n
          :: b64decode rest
  | _ => []
  end.

(* ====================================================================== *)
(** ** The outside world of translation.py *)
(* ====================================================================== *)

(** What one [recv()] on the socket does: deliver a text frame, raise
    [WebSocketTimeoutException], or raise
    [WebSocketConnectionClosedException]. *)
Inductive recv_event : Type :=
| Frame (payload : str)
| RecvTimeout
| RecvClosed.

(** The [websocket.WebSocket] object of the websocket-client library, as a
    script: the outcomes of the coming [recv()] calls in order (when the
    script is used up nothing arrives within the timeout), and whether
    [send()] or [close()] raise. *)
Record WebSocket : Type := mkWebSocket {
  pending : list recv_event;
  send_fault : option exn;
  close_fault : option exn;
  timeout : option (Z * Z)   (* seconds, as a fraction *)
}.

(** Calls made on the socket library, in order. *)
Inductive ws_call : Type :=
| create_connection_call (url : str) (header : list str)
| settimeout_call (num den : Z)
| send_call (payload : str)
| recv_call
| close_call.

(** Library and interpreter services that are not part of the repository. *)
Record Env : Type := mkEnv {
  (** [json.loads]; [None] when it raises. *)
  json_loads : str -> option pyval;
  (** [json.dumps(v, ensure_ascii=flag)] *)
  json_dumps : bool -> pyval -> str;
  (** [str(v)] inside an f-string, for a value that is not a [str]. *)
  py_str : pyval -> str;
  (** [websocket.create_connection(url, header=..)] *)
  create_connection : str -> list str -> result WebSocket;
  (** [int(time.time() * 1000)] read while the event counter has the
      given value. *)
  clock_ms : N -> N;
  (** [f"{a / b:.1f}"] for integers [a] and [b <> 0]. *)
  format_1f : Z -> Z -> str;
  (** Whether [import websocket] succeeded. *)
  websocket_available : bool
}.

(** [f"{v}"] *)
Definition format_value (env : Env) (v : pyval) : str :=
  match v with
  | PyStr s => s
  | _ => py_str env v
  end.

Record DashScopeConfig : Type := mkDashScopeConfig {
  api_key : str;
  model : str;
  target_language : str
}.

Definition BASE_WS_ENDPOINT : str :=
  lit "wss://dashscope.aliyuncs.com/api-ws/v1/realtime".

(** Message texts of translation.py, as code points. *)
Definition MSG_NO_API_KEY : str :=
  [26410; 37197; 32622; 32]%N ++ lit "DashScope API Key"
  ++ [65292; 35831; 22312; 32]%N ++ lit "config.ini"
  ++ [32; 20013; 22635; 20889; 32]%N ++ lit "dashscope.api_key".
Definition MSG_NO_SOCKET : str :=
  lit "WebSocket " ++ [23578; 26410; 24314; 31435]%N.
Definition MSG_CLOSED : str :=
  lit "DashScope WebSocket " ++ [24050; 20851; 38381]%N.
Definition MSG_SERVICE_ERROR : str :=
  lit "DashScope " ++ [26381; 21153; 36820; 22238; 38169; 35823]%N ++ lit ": ".
Definition MSG_NO_WEBSOCKET_LIB : str :=
  [32570; 23569; 32]%N ++ lit "websocket-client"
  ++ [32; 20381; 36182; 65292; 35831; 36816; 34892; 32]%N
  ++ lit "pip install websocket-client".
Definition MOCK_PREFIX : str :=
  lit "[Mock] " ++ [24050; 22788; 29702; 32422; 32]%N.
Definition MOCK_SUFFIX : str := [32; 31186; 38899; 39057]%N.

(* ====================================================================== *)
(** ** translation.py: DashScopeRealtimeBackend *)
(* ====================================================================== *)

Module DashScopeRealtimeBackend.

(** The attributes of the object. [_lock] guards [send] against other
    threads and holds no data. *)
Record t : Type := mk {
  config : DashScopeConfig;
  _samplerate : Z;
  _ws : option WebSocket;
  _event_counter : N
}.

Definition with_ws (self : t) (ws : option WebSocket) : t :=
  {| config := config self; _samplerate := _samplerate self;
     _ws := ws; _event_counter := _event_counter self |}.

Definition with_counter (self : t) (c : N) : t :=
  {| config := config self; _samplerate := _samplerate self;
     _ws := _ws self; _event_counter := c |}.

(** A method returns its result, the object afterwards, and the calls it
    made on the socket library. *)
Definition outcome (A : Type) : Type := (result A * t * list ws_call)%type.

Definition __init__ (env : Env) (cfg : DashScopeConfig) (samplerate : Z)
  : result t :=
  if negb (websocket_available env)
  then Raise (RuntimeError MSG_NO_WEBSOCKET_LIB)
  else Ok {| config := cfg; _samplerate := samplerate;
             _ws := None; _event_counter := 0 |}.

Definition _next_event_id (env : Env) (self : t) : str * t :=
  let self1 := with_counter self (_event_counter self + 1) in
  (lit "event_" ++ dec (clock_ms env (_event_counter self1))
   ++ lit "_" ++ dec (_event_counter self1), self1).

Definition _send_json (env : Env) (message : pyval) (self : t)
  : outcome unit :=
  match _ws self with
  | None => (Raise (RuntimeError MSG_NO_SOCKET), self, [])
  | Some ws =>
      (match send_fault ws with Some e => Raise e | None => Ok tt end,
       self, [send_call (json_dumps env true message)])
  end.

Definition _send_session_update (env : Env) (self : t) : outcome unit :=
  let session :=
    PyDict [(lit "modalities", PyList [PyStr (lit "text")]);
            (lit "input_audio_format", PyStr (lit "pcm16"));
            (lit "translation",
             PyDict [(lit "language",
                      PyStr (target_language (config self)))])] in
  let (event_id, self1) := _next_event_id env self in
  let payload :=
    PyDict [(lit "event_id", PyStr event_id);
            (lit "type", PyStr (lit "session.update"));
            (lit "session", session)] in
  _send_json env payload self1.

Definition start (env : Env) (self : t) : outcome unit :=
  if negb (truthy (api_key (config self)))
  then (Raise (RuntimeError MSG_NO_API_KEY), self, [])
  else
    let url := BASE_WS_ENDPOINT ++ lit "?model=" ++ model (config self) in
    let headers := [lit "Authorization: Bearer " ++ api_key (config self)] in
    match create_connection env url headers with
    | Raise e => (Raise e, self, [create_connection_call url headers])
    | Ok ws =>
        let ws1 := {| pending := pending ws; send_fault := send_fault ws;
                      close_fault := close_fault ws;
                      timeout := Some (1, 10)%Z |} in
        let '(r, self2, calls) :=
          _send_session_update env (with_ws self (Some ws1)) in
        (r, self2,
         create_connection_call url headers :: settimeout_call 1 10 :: calls)
    end.

Definition audio_event (event_id : str) (pcm_chunk : bytes) : pyval :=
  PyDict [(lit "event_id", PyStr event_id);
          (lit "type", PyStr (lit "input_audio_buffer.append"));
          (lit "audio", PyStr (b64encode pcm_chunk))].

Definition send_audio (env : Env) (pcm_chunk : bytes) (self : t)
  : outcome unit :=
  if match _ws self with None => true | Some _ => false end
     || match pcm_chunk with [] => true | _ :: _ => false end
  then (Ok tt, self, [])
  else
    let (event_id, self1) := _next_event_id env self in
    _send_json env (audio_event event_id pcm_chunk) self1.

Definition flush (self : t) : outcome unit := (Ok tt, self, []).

(** [event_type in {"response.audio_transcript.delta",
    "response.audio_transcript.done"}]: a list or dict cannot be hashed. *)
Definition in_transcript_types (event_type : pyval) : result bool :=
  match event_type with
  | PyList _ | PyDict _ => Raise (TypeError event_type)
  | _ => Ok (eq_str event_type (lit "response.audio_transcript.delta")
             || eq_str event_type (lit "response.audio_transcript.done"))
  end.

(** ["response.text" in event_type] *)
Definition has_response_text (event_type : pyval) : result bool :=
  match event_type with
  | PyStr s => Ok (contains s (lit "response.text"))
  | PyList l => Ok (existsb (fun v => eq_str v (lit "response.text")) l)
  | PyDict d => Ok (existsb (fun kv => str_eqb (fst kv) (lit "response.text")) d)
  | _ => Raise (TypeError event_type)
  end.

Definition append_if (text : pyval) (transcripts : list pyval) : list pyval :=
  if py_truthy text then transcripts ++ [text] else transcripts.

(** The [error] branch: the text put into the raised [RuntimeError]. *)
Definition error_details (env : Env) (data : pyval) : result pyval :=
  details <- py_get data (lit "message") ;;
  details <- (if negb (py_truthy details)
              then (err <- py_get data (lit "error") ;;
                    if is_dict err then py_get err (lit "message")
                    else Ok details)
              else Ok details) ;;
  Ok (if negb (py_truthy details)
      then PyStr (json_dumps env false data)
      else details).

(** The body of the [while True] loop after [json.loads]: the transcripts
    after this event, or the exception raised. *)
Definition dispatch (env : Env) (data : pyval) (transcripts : list pyval)
  : result (list pyval) :=
  event_type <- py_get data (lit "type") ;;
  is_transcript <- in_transcript_types event_type ;;
  if is_transcript then
    text <- py_get data (lit "transcript") ;;
    Ok (append_if text transcripts)
  else
    is_text <- (if py_truthy event_type then has_response_text event_type
                else Ok false) ;;
    if is_text then
      text <- py_get data (lit "text") ;;
      text <- (if py_truthy text then Ok text
               else py_get data (lit "stash")) ;;
      text <- (if negb (py_truthy text)
               then (part <- py_get data (lit "part") ;;
                     if is_dict part then py_get part (lit "text")
                     else Ok text)
               else Ok text) ;;
      Ok (append_if text transcripts)
    else if eq_str event_type (lit "response.content_part.added") then
      part <- py_get data (lit "part") ;;
      let part := py_or part (PyDict []) in
      part_type <- py_get part (lit "type") ;;
      if eq_str part_type (lit "text") then
        text <- py_get part (lit "text") ;;
        Ok (append_if text transcripts)
      else Ok transcripts
    else if eq_str event_type (lit "error") then
      details <- error_details env data ;;
      Raise (RuntimeError (MSG_SERVICE_ERROR ++ format_value env details))
    else Ok transcripts.

(** The [while True] loop of [poll_translations] over the coming [recv()]
    outcomes: the result, the outcomes left unread, the socket calls. *)
Fixpoint drain (env : Env) (incoming : list recv_event)
  (transcripts : list pyval)
  : result (list pyval) * list recv_event * list ws_call :=
  match incoming with
  | [] => (Ok transcripts, [], [recv_call])
  | RecvTimeout :: rest => (Ok transcripts, rest, [recv_call])
  | RecvClosed :: rest => (Raise (RuntimeError MSG_CLOSED), rest, [recv_call])
  | Frame payload :: rest =>
      match json_loads env payload with
      | None => (Raise (JSONDecodeError payload), rest, [recv_call])
      | Some data =>
          match dispatch env data transcripts with
          | Raise e => (Raise e, rest, [recv_call])
          | Ok transcripts' =>
              let '(r, rest', calls) := drain env rest transcripts' in
              (r, rest', recv_call :: calls)
          end
      end
  end.

Definition with_pending (ws : WebSocket) (p : list recv_event) : WebSocket :=
  {| pending := p; send_fault := send_fault ws;
     close_fault := close_fault ws; timeout := timeout ws |}.

Definition poll_translations (env : Env) (self : t) : outcome (list pyval) :=
  match _ws self with
  | None => (Ok [], self, [])
  | Some ws =>
      let '(r, rest, calls) := drain env (pending ws) [] in
      (r, with_ws self (Some (with_pending ws rest)), calls)
  end.

(** [try: self._ws.close() finally: self._ws = None] *)
Definition stop (self : t) : outcome unit :=
  match _ws self with
  | Some ws =>
      (match close_fault ws with Some e => Raise e | None => Ok tt end,
       with_ws self None, [close_call])
  | None => (Ok tt, self, [])
  end.

End DashScopeRealtimeBackend.

(* ====================================================================== *)
(** ** translation.py: MockTranslatorBackend *)
(* ====================================================================== *)

Module MockTranslatorBackend.

Record t : Type := mk {
  _buffer : Z;
  _samplerate : Z
}.

Definition with_buffer (self : t) (b : Z) : t :=
  {| _buffer := b; _samplerate := _samplerate self |}.

Definition __init__ (samplerate : Z) : t :=
  {| _buffer := 0; _samplerate := samplerate |}.

Definition start (self : t) : result unit * t := (Ok tt, with_buffer self 0).

Definition send_audio (pcm_chunk : bytes) (self : t) : result unit * t :=
  (Ok tt, with_buffer self (_buffer self + Z.of_nat (length pcm_chunk))).

(** [seconds = self._buffer / (self._samplerate * 2)] raises
    [ZeroDivisionError] on a zero divisor, before the counter is reset. *)
Definition poll_translations (env : Env) (self : t)
  : result (list pyval) * t :=
  if (_buffer self =? 0)%Z then (Ok [], self)
  else if (_samplerate self * 2 =? 0)%Z then (Raise ZeroDivisionError, self)
  else
    let seconds := format_1f env (_buffer self) (_samplerate self * 2) in
    (Ok [PyStr (MOCK_PREFIX ++ seconds ++ MOCK_SUFFIX)], with_buffer self 0).

Definition flush (self : t) : result unit * t := (Ok tt, with_buffer self 0).

Definition stop (self : t) : result unit * t := (Ok tt, with_buffer self 0).

End MockTranslatorBackend.

(* ====================================================================== *)
(** ** translation.py: TranslationBackend and TranslationWorker *)
(* ====================================================================== *)

(** The [TranslationBackend] protocol: each method gives its result and the
    backend afterwards. *)
Class TranslationBackend (B : Type) : Type := {
  backend_start : B -> result unit * B;
  backend_send_audio : bytes -> B -> result unit * B;
  backend_poll_translations : B -> result (list pyval) * B;
  backend_flush : B -> result unit * B;
  backend_stop : B -> result unit * B
}.

(** The two implementors, as [_create_backend] chooses between them. *)
Inductive AnyBackend : Type :=
| Live (b : DashScopeRealtimeBackend.t)
| Null (b : MockTranslatorBackend.t).

Definition lift_live {A} (o : DashScopeRealtimeBackend.outcome A)
  : result A * AnyBackend :=
  let '(r, b, _) := o in (r, Live b).

Definition lift_null {A} (o : result A * MockTranslatorBackend.t)
  : result A * AnyBackend :=
  let (r, b) := o in (r, Null b).

Definition any_backend (env : Env) : TranslationBackend AnyBackend := {|
  backend_start b :=
    match b with
    | Live d => lift_live (DashScopeRealtimeBackend.start env d)
    | Null m => lift_null (MockTranslatorBackend.start m)
    end;
  backend_send_audio chunk b :=
    match b with
    | Live d => lift_live (DashScopeRealtimeBackend.send_audio env chunk d)
    | Null m => lift_null (MockTranslatorBackend.send_audio chunk m)
    end;
  backend_poll_translations b :=
    match b with
    | Live d => lift_live (DashScopeRealtimeBackend.poll_translations env d)
    | Null m => lift_null (MockTranslatorBackend.poll_translations env m)
    end;
  backend_flush b :=
    match b with
    | Live d => lift_live (DashScopeRealtimeBackend.flush d)
    | Null m => lift_null (MockTranslatorBackend.flush m)
    end;
  backend_stop b :=
    match b with
    | Live d => lift_live (DashScopeRealtimeBackend.stop d)
    | Null m => lift_null (MockTranslatorBackend.stop m)
    end
|}.

Module TranslationWorker.

(** What the worker does that others can see: calls on the backend and
    signals. [error_occurred] carries [str(exc)]; the exception is kept. *)
Inductive event : Type :=
| start_call
| send_audio_call (chunk : bytes)
| poll_translations_call
| flush_call
| stop_call
| subtitle_ready (text : str)
| error_occurred (exc : exn).

(** One turn of [for chunk in self._audio_capture.stream_pcm_chunks()]:
    the generator yields a chunk, and [_stop_event.is_set()] is then read
    as given; or the generator raises. An exhausted list is a generator
    that returned. *)
Inductive audio_item : Type :=
| Chunk (pcm : bytes) (stop_is_set : bool)
| CaptureError (e : exn).

Record t (B : Type) : Type := mk {
  _backend : option B;
  _last_caption : str
}.

(** [(caption or "").strip()] *)
Definition normalize_caption (caption : pyval) : result str :=
  match py_or caption (PyStr []) with
  | PyStr s => Ok (strip s)
  | v => Raise (AttributeError v (lit "strip"))
  end.

(** [for caption in backend.poll_translations(): ...] *)
Fixpoint emit_captions (captions : list pyval) (last_caption : str)
  : result unit * str * list event :=
  match captions with
  | [] => (Ok tt, last_caption, [])
  | caption :: rest =>
      match normalize_caption caption with
      | Raise e => (Raise e, last_caption, [])
      | Ok normalized =>
          if negb (truthy normalized) || str_eqb normalized last_caption
          then emit_captions rest last_caption
          else
            let '(r, last', evs) := emit_captions rest normalized in
            (r, last', subtitle_ready normalized :: evs)
      end
  end.

Section Run.
Context {B : Type} {ops : TranslationBackend B}.

(** The [for chunk in ...] loop. *)
Fixpoint loop (audio : list audio_item) (backend : B) (last_caption : str)
  : result unit * B * str * list event :=
  match audio with
  | [] => (Ok tt, backend, last_caption, [])
  | CaptureError e :: _ => (Raise e, backend, last_caption, [])
  | Chunk chunk stop_is_set :: rest =>
      if stop_is_set then (Ok tt, backend, last_caption, [])
      else
        let (r1, b1) := backend_send_audio chunk backend in
        match r1 with
        | Raise e => (Raise e, b1, last_caption, [send_audio_call chunk])
        | Ok _ =>
            let (r2, b2) := backend_poll_translations b1 in
            match r2 with
            | Raise e =>
                (Raise e, b2, last_caption,
                 [send_audio_call chunk; poll_translations_call])
            | Ok captions =>
                let '(r3, last3, evs) := emit_captions captions last_caption in
                match r3 with
                | Raise e =>
                    (Raise e, b2, last3,
                     send_audio_call chunk :: poll_translations_call :: evs)
                | Ok _ =>
                    let '(r, b', last', evs') := loop rest b2 last3 in
                    (r, b', last',
                     send_audio_call chunk :: poll_translations_call
                     :: evs ++ evs')
                end
            end
        end
  end.

(** The [try] block of [run]: the result, the backend object as it is
    left, and the events. *)
Definition run_try (create : result B) (audio : list audio_item)
  : result unit * option B * list event :=
  match create with
  | Raise e => (Raise e, None, [])
  | Ok backend =>
      let (r0, b0) := backend_start backend in
      match r0 with
      | Raise e => (Raise e, Some b0, [start_call])
      | Ok _ =>
          let '(r1, b1, _, evs) := loop audio b0 [] in
          match r1 with
          | Raise e => (Raise e, Some b1, start_call :: evs)
          | Ok _ =>
              let (r2, b2) := backend_flush b1 in
              match r2 with
              | Raise e => (Raise e, Some b2, start_call :: evs ++ [flush_call])
              | Ok _ =>
                  let (r3, b3) := backend_stop b2 in
                  (r3, Some b3, start_call :: evs ++ [flush_call; stop_call])
              end
          end
      end
  end.

(** [run]: [except Exception] emits [error_occurred], [finally] resets
    [_backend] and [_last_caption]. Returns the worker afterwards, the
    backend object it lets go of, and the events. *)
Definition run (create : result B) (self : t B) (audio : list audio_item)
  : t B * option B * list event :=
  let '(r, left_behind, evs) := run_try create audio in
  let evs' := match r with
              | Raise e => evs ++ [error_occurred e]
              | Ok _ => evs
              end in
  ({| _backend := None; _last_caption := [] |}, left_behind, evs').

End Run.

(** [_create_backend] *)
Definition _create_backend (env : Env) (cfg : DashScopeConfig)
  (samplerate : Z) : result AnyBackend :=
  if truthy (api_key cfg)
  then d <- DashScopeRealtimeBackend.__init__ env cfg samplerate ;; Ok (Live d)
  else Ok (Null (MockTranslatorBackend.__init__ samplerate)).

End TranslationWorker.

(* ====================================================================== *)
(** ** audio.py: SystemAudioCapture._float_to_pcm16 *)
(* ====================================================================== *)

Module SystemAudioCapture.

(** The element type of the frame array: the recorder delivers [float32]
    frames; a NumPy array built from Python floats is [float64]. Samples
    are canonical IEEE 754 floats of that format. *)
Inductive float_format : Type :=
| float32
| float64.

Definition prec (fmt : float_format) : Z :=
  match fmt with float32 => 24 | float64 => 53 end.

Definition emax (fmt : float_format) : Z :=
  match fmt with float32 => 128 | float64 => 1024 end.

(** The float [m * 2^e], rounded to the format. *)
Definition float_of (fmt : float_format) (m e : Z) : spec_float :=
  binary_normalize (prec fmt) (emax fmt) m e false.

Definition is_nan (x : spec_float) : bool :=
  match x with S754_nan => true | _ => false end.

(** [np.maximum] and [np.minimum]: a NaN operand is the result. *)
Definition maximum (x y : spec_float) : spec_float :=
  if is_nan x then x else if is_nan y then y
  else if SFltb x y then y else x.

Definition minimum (x y : spec_float) : spec_float :=
  if is_nan x then x else if is_nan y then y
  else if SFltb y x then y else x.

(** [np.clip(x, -1.0, 1.0)] *)
Definition clip (fmt : float_format) (x : spec_float) : spec_float :=
  minimum (maximum x (float_of fmt (-1) 0)) (float_of fmt 1 0).

(** [np.iinfo(np.int16).max] *)
Definition INT16_MAX : Z := 32767.

(** The integer part of a finite float (rounding toward zero). *)
Definition truncate (x : spec_float) : option Z :=
  match x with
  | S754_zero _ => Some 0%Z
  | S754_finite s m e =>
      let v := if (0 <=? e)%Z then (Zpos m * 2 ^ e)%Z
               else Z.shiftr (Zpos m) (- e) in
      Some (if s then (- v)%Z else v)
  | S754_infinity _ | S754_nan => None
  end.

(** [.astype(np.int16)]: defined when the integer part fits; otherwise the
    cast is undefined in C and NumPy yields the platform's value
    [invalid]. *)
Definition astype_int16 (invalid : Z) (x : spec_float) : Z :=
  match truncate x with
  | Some v => if ((-32768 <=? v) && (v <=? 32767))%Z then v else invalid
  | None => invalid
  end.

(** One sample of [(clipped * np.iinfo(np.int16).max).astype(np.int16)]. *)
Definition pcm16_sample (fmt : float_format) (invalid : Z) (x : spec_float)
  : Z :=
  astype_int16 invalid
    (SFmul (prec fmt) (emax fmt) (clip fmt x) (float_of fmt INT16_MAX 0)).

(** [tobytes()] of one [int16], little-endian two's complement. *)
Definition int16_bytes (v : Z) : bytes :=
  let u := Z.to_N (v mod 65536) in
  [byte_of (u mod 256); byte_of (u / 256)].

(** The [int16] array before [tobytes()]. *)
Definition pcm16_samples (fmt : float_format) (invalid : Z)
  (data : list spec_float) : list Z :=
  map (pcm16_sample fmt invalid) data.

Definition _float_to_pcm16 (fmt : float_format) (invalid : Z)
  (data : list spec_float) : bytes :=
  flat_map int16_bytes (pcm16_samples fmt invalid data).

(** Reading the bytes back as [int16] samples. *)
Fixpoint int16_of_bytes (b : bytes) : list Z :=
  match b with
  | lo :: hi :: rest =>
      let u := (Z.of_N (Byte.to_N lo) + 256 * Z.of_N (Byte.to_N hi))%Z in
      (if (u <? 32768)%Z then u else (u - 65536)%Z) :: int16_of_bytes rest
  | _ => []
  end.

End SystemAudioCapture.

(* ====================================================================== *)
(** ** Vocabulary of the statements and concrete inputs *)
(* ====================================================================== *)

(** [data.get(k)] when [data] is a [dict] ([None] otherwise). *)
Definition field (data : pyval) (k : str) : pyval :=
  match py_get data k with
  | Ok v => v
  | Raise _ => PyNone
  end.

(** The frames [payloads] are all read and dispatched without an
    exception, and extend [transcripts] to the result. *)
Fixpoint collected (env : Env) (payloads : list str)
  (transcripts : list pyval) : option (list pyval) :=
  match payloads with
  | [] => Some transcripts
  | p :: rest =>
      match json_loads env p with
      | None => None
      | Some data =>
          match DashScopeRealtimeBackend.dispatch env data transcripts with
          | Ok transcripts' => collected env rest transcripts'
          | Raise _ => None
          end
      end
  end.

(** A sequence of [send_audio] calls on one client; results are ignored,
    the socket calls are collected. *)
Fixpoint send_all (env : Env) (chunks : list bytes)
  (self : DashScopeRealtimeBackend.t)
  : DashScopeRealtimeBackend.t * list ws_call :=
  match chunks with
  | [] => (self, [])
  | c :: rest =>
      let '(_, self1, calls) :=
        DashScopeRealtimeBackend.send_audio env c self in
      let (self2, calls') := send_all env rest self1 in
      (self2, calls ++ calls')
  end.

(** The frame [send_audio] hands to the socket when the counter has
    reached [n]. *)
Definition audio_frame (env : Env) (n : N) (chunk : bytes) : ws_call :=
  send_call
    (json_dumps env true
       (PyDict [(lit "event_id",
                 PyStr (lit "event_" ++ dec (clock_ms env n)
                        ++ lit "_" ++ dec n));
                (lit "type", PyStr (lit "input_audio_buffer.append"));
                (lit "audio", PyStr (b64encode chunk))])).

Fixpoint audio_frames (env : Env) (n : N) (chunks : list bytes)
  : list ws_call :=
  match chunks with
  | [] => []
  | c :: rest => audio_frame env n c :: audio_frames env (n + 1) rest
  end.

Module Demo.

Definition quota_event : pyval :=
  PyDict [(lit "type", PyStr (lit "error"));
          (lit "message", PyStr (lit "quota exceeded"))].

Definition delta_event : pyval :=
  PyDict [(lit "type", PyStr (lit "response.audio_transcript.delta"));
          (lit "transcript", PyStr (lit "hello"))].

(** A socket on which nothing arrives and nothing fails. *)
Definition idle_socket : WebSocket :=
  {| pending := []; send_fault := None; close_fault := None;
     timeout := None |}.

(** A socket that delivers a transcript, then the error event, then one
    more transcript. *)
Definition quota_socket : WebSocket :=
  {| pending := [Frame (lit "delta"); Frame (lit "quota");
                 Frame (lit "delta")];
     send_fault := None; close_fault := None; timeout := Some (1, 10)%Z |}.

(** A socket whose [close()] raises. *)
Definition stuck_socket : WebSocket :=
  {| pending := []; send_fault := None;
     close_fault := Some (OSError (lit "Bad file descriptor"));
     timeout := Some (1, 10)%Z |}.

(** An environment for the examples: two frame texts are understood by
    [json_loads], the clock stands still. *)
Definition env : Env :=
  {| json_loads := fun p =>
       if str_eqb p (lit "quota") then Some quota_event
       else if str_eqb p (lit "delta") then Some delta_event
       else None;
     json_dumps := fun _ _ => lit "{...}";
     py_str := fun _ => lit "<object>";
     create_connection := fun _ _ => Ok quota_socket;
     clock_ms := fun _ => 1762000000000%N;
     format_1f := fun a b => dec (Z.to_N (a / b)) ++ lit ".0";
     websocket_available := true |}.

Definition cfg : DashScopeConfig :=
  {| api_key := lit "sk-demo";
     model := lit "qwen3-livetranslate-flash-realtime";
     target_language := lit "zh" |}.

Definition client (ws : option WebSocket) : DashScopeRealtimeBackend.t :=
  DashScopeRealtimeBackend.mk cfg 16000 ws 1.

End Demo.

Module WorkerVocabulary.
Import TranslationWorker.

(** Events of the [for chunk in ...] loop body. *)
Definition is_loop_event (ev : event) : bool :=
  match ev with
  | send_audio_call _ | poll_translations_call | subtitle_ready _ => true
  | _ => false
  end.

Definition is_error_occurred (ev : event) : bool :=
  match ev with
  | error_occurred _ => true
  | _ => false
  end.

Definition is_cleanup_call (ev : event) : bool :=
  match ev with
  | flush_call | stop_call => true
  | _ => false
  end.

(** How many events of a kind a trace holds. *)
Definition count (p : event -> bool) (evs : list event) : nat :=
  length (filter p evs).

(** A session on the live backend: one chunk is sent, the service answers
    with a transcript and then the error event. *)
Definition failing_audio : list audio_item :=
  [Chunk [Byte.x01; Byte.x02] false; Chunk [Byte.x03; Byte.x04] true].

Definition fresh_worker : t AnyBackend :=
  {| _backend := None; _last_caption := [] |}.

End WorkerVocabulary.

(* ====================================================================== *)
(** ** widgets/floating_window.py: the transcript pane *)
(* ====================================================================== *)

Module SubtitleMainWindow.

(** The attributes of [SubtitleMainWindow] that the transcript methods
    touch. [_transcript_edit] is the plain text of the [QTextEdit]
    document; [setPlainText] replaces it, [insertText] at the end of the
    document extends it, and each change fires [textChanged]. *)
Record t : Type := mk {
  _transcript_edit : str;
  _suspend_text_signal : bool;
  _autoscroll_enabled : bool;
  _is_streaming : bool
}.

Inductive signal : Type :=
| start_requested
| pause_requested
| history_cleared
| transcript_modified (text : str).

Definition with_text (self : t) (text : str) : t :=
  {| _transcript_edit := text;
     _suspend_text_signal := _suspend_text_signal self;
     _autoscroll_enabled := _autoscroll_enabled self;
     _is_streaming := _is_streaming self |}.

Definition with_suspend (self : t) (b : bool) : t :=
  {| _transcript_edit := _transcript_edit self;
     _suspend_text_signal := b;
     _autoscroll_enabled := _autoscroll_enabled self;
     _is_streaming := _is_streaming self |}.

(** The slot of [textChanged]. *)
Definition _handle_text_changed (self : t) : list signal :=
  if _suspend_text_signal self then []
  else [transcript_modified (_transcript_edit self)].

(** The document takes a new text and [textChanged] fires. *)
Definition document_changed (text : str) (self : t) : t * list signal :=
  let self1 := with_text self text in
  (self1, _handle_text_changed self1).

Definition set_transcript (text : str) (self : t) : t * list signal :=
  let self1 := with_suspend self true in
  let (self2, signals) := document_changed text self1 in
  (with_suspend self2 false, signals).

Definition append_transcript (text : str) (self : t) : t * list signal :=
  if negb (truthy text) then (self, [])
  else
    let self1 := with_suspend self true in
    let (self2, signals) :=
      document_changed (_transcript_edit self1 ++ text) self1 in
    (with_suspend self2 false, signals).

Definition clear_transcript (self : t) : t * list signal :=
  let self1 := with_suspend self true in
  let (self2, signals) := document_changed [] self1 in
  (with_suspend self2 false, signals).

Definition _handle_clear_clicked (self : t) : t * list signal :=
  let (self1, signals) := clear_transcript self in
  (self1, signals ++ [history_cleared]).

Definition _toggle_start_pause (self : t) : list signal :=
  if _is_streaming self then [pause_requested] else [start_requested].

End SubtitleMainWindow.

(* ====================================================================== *)
(** ** app.py: the controller wired to its window *)
(* ====================================================================== *)

Module Wiring.

(** The controller together with the window it owns. *)
Record App : Type := mkApp {
  controller : ApplicationController;
  window : SubtitleMainWindow.t
}.

(** The connections made in [ApplicationController.__init__] for the
    transcript: [history_cleared] and [transcript_modified]. *)
Definition on_signal (c : ApplicationController)
  (s : SubtitleMainWindow.signal) : ApplicationController :=
  match s with
  | SubtitleMainWindow.history_cleared => _reset_transcript_cache c
  | SubtitleMainWindow.transcript_modified text =>
      _handle_transcript_modified c text
  | _ => c
  end.

(** One call on the window, with the signals it emits delivered. *)
Definition perform (app : App) (call : window_call) : App :=
  let (w, signals) :=
    match call with
    | set_transcript text =>
        SubtitleMainWindow.set_transcript text (window app)
    | append_transcript text =>
        SubtitleMainWindow.append_transcript text (window app)
    end in
  {| controller := fold_left on_signal signals (controller app);
     window := w |}.

(** What happens to the pair: a subtitle arrives
    ([_handle_subtitle_ready]), the clear button is clicked, or the user
    edits the text in the pane. *)
Inductive happening : Type :=
| Subtitle (text : str)
| ClearClicked
| UserEdit (new_text : str).

Definition step (app : App) (h : happening) : App :=
  match h with
  | Subtitle text =>
      let (c, calls) := add_history_entry (controller app) text in
      fold_left perform calls {| controller := c; window := window app |}
  | ClearClicked =>
      let (w, signals) :=
        SubtitleMainWindow._handle_clear_clicked (window app) in
      {| controller := fold_left on_signal signals (controller app);
         window := w |}
  | UserEdit new_text =>
      let (w, signals) :=
        SubtitleMainWindow.document_changed new_text (window app) in
      {| controller := fold_left on_signal signals (controller app);
         window := w |}
  end.


End Wiring.

(* ====================================================================== *)
(** ** Vocabulary for the streaming back ends and the worker *)
(* ====================================================================== *)

Module StreamVocabulary.


(** The code points ['0'] to ['9']. *)
Definition is_digit (c : char) : Prop := (48 <= c <= 57)%N.

(** The identifier built when the event counter has reached [n]. *)
Definition event_id (env : Env) (n : N) : str :=
  lit "event_" ++ dec (clock_ms env n) ++ lit "_" ++ dec n.

(** A sequence of [send_audio] calls on the mock backend. *)
Fixpoint mock_send_all (chunks : list bytes) (self : MockTranslatorBackend.t)
  : MockTranslatorBackend.t :=
  match chunks with
  | [] => self
  | c :: rest =>
      mock_send_all rest (snd (MockTranslatorBackend.send_audio c self))
  end.

Definition total_length (chunks : list bytes) : Z :=
  fold_right (fun c acc => (Z.of_nat (length c) + acc)%Z) 0%Z chunks.

(** The captions a trace of the worker emits, in order. *)
Fixpoint captions_of (evs : list TranslationWorker.event) : list str :=
  match evs with
  | [] => []
  | TranslationWorker.subtitle_ready text :: rest => text :: captions_of rest
  | _ :: rest => captions_of rest
  end.

(** Each caption is non-empty, free of surrounding white space, and
    differs from the one before it ([previous] before the first). *)
Fixpoint fresh_captions (previous : str) (captions : list str) : Prop :=
  match captions with
  | [] => True
  | c :: rest =>
      c <> [] /\ strip c = c /\ c <> previous /\ fresh_captions c rest
  end.

(** The audio source never fails. *)
Definition capture_ok (item : TranslationWorker.audio_item) : bool :=
  match item with
  | TranslationWorker.Chunk _ _ => true
  | TranslationWorker.CaptureError _ => false
  end.

End StreamVocabulary.

(* ====================================================================== *)
(** ** audio.py: choosing the loopback microphone *)
(* ====================================================================== *)

Module LoopbackDevice.

(** What the soundcard library reports: a microphone has a name and may
    have an [isloopback] attribute; the default speaker has a name. *)
Record Microphone : Type := mkMicrophone {
  name : str;
  isloopback : option bool
}.

Record Speaker : Type := mkSpeaker {
  speaker_name : str
}.

Definition MSG_NO_LOOPBACK : str :=
  [26080; 27861; 25214; 21040; 31995; 32479; 25196; 22768; 22120; 30340;
   22238; 29615; 36755; 20837; 65292; 35831; 26816; 26597; 22768; 21345;
   35774; 32622; 12290]%N.

(** [getattr(mic, "isloopback", False)] *)
Definition is_loopback (mic : Microphone) : bool :=
  match isloopback mic with
  | Some b => b
  | None => false
  end.

(** [_resolve_loopback_microphone], given [sc.default_speaker()] and
    [sc.all_microphones(include_loopback=True)]. *)
Definition _resolve_loopback_microphone (speaker : option Speaker)
  (all_microphones : list Microphone) : result Microphone :=
  let candidates := filter is_loopback all_microphones in
  let by_name :=
    match speaker with
    | Some sp =>
        find (fun mic => str_eqb (name mic) (speaker_name sp)) candidates
    | None => None
    end in
  match by_name with
  | Some mic => Ok mic
  | None =>
      match candidates with
      | mic :: _ => Ok mic
      | [] => Raise (RuntimeError MSG_NO_LOOPBACK)
      end
  end.

End LoopbackDevice.

(* ====================================================================== *)
(** ** config.py, floating_window.py, app.py: display settings *)
(* ====================================================================== *)

Module Display.

(** The dataclasses of config.py. [background_opacity] is a Python
    [float], an IEEE 754 binary64 number. *)
Record DisplayConfig : Type := mkDisplayConfig {
  font_family : str;
  font_size : Z;
  font_color : str;
  background_opacity : spec_float
}.

Record AppConfig : Type := mkAppConfig {
  dashscope : DashScopeConfig;
  display : DisplayConfig
}.

(** The literals [0.1], [1.0] and [100.0]. *)
Definition FLOAT_0_1 : spec_float := S754_finite false 7205759403792794 (-56).
Definition FLOAT_1 : spec_float := S754_finite false 4503599627370496 (-52).
Definition FLOAT_100 : spec_float := S754_finite false 7036874417766400 (-46).

(** The builtins [min(a, b)] and [max(a, b)]: the first argument, unless
    the second is strictly smaller (greater). *)
Definition py_min_float (a b : spec_float) : spec_float :=
  if SFltb b a then b else a.
Definition py_max_float (a b : spec_float) : spec_float :=
  if SFltb a b then b else a.
Definition py_max_int (a b : Z) : Z := if (a <? b)%Z then b else a.

(** Decimal rendering of an [int]. *)
Definition dec_int (z : Z) : str :=
  if (z <? 0)%Z then 45%N :: dec (Z.to_N (- z)) else dec (Z.to_N z).

(** [TRANSCRIPT_STYLE_TEMPLATE.format(font_size=.., font_family=..,
    font_color=..)] *)
Definition transcript_style (size : Z) (family color : str) : str :=
  lit "font-size: " ++ dec_int size ++ lit "px;"
  ++ lit "font-family: '" ++ family ++ lit "';"
  ++ lit "color: " ++ color ++ lit ";"
  ++ lit "line-height: 1.55;"
  ++ lit "background-color: #1B1B1B;"
  ++ lit "border: 1px solid #2E2E2E;"
  ++ lit "border-radius: 14px;"
  ++ lit "padding: 20px;".

(** The calls on Qt made by [SubtitleMainWindow.apply_display_config]. *)
Inductive qt_call : Type :=
| setStyleSheet (style : str)
| setWindowOpacity (level : spec_float).

(** [a or b] on strings. *)
Definition str_or (a b : str) : str := if truthy a then a else b.

(** [SubtitleMainWindow.apply_display_config] *)
Definition window_apply_display_config (family : str) (size : Z)
  (color : str) (opacity : spec_float) : list qt_call :=
  let safe_color := str_or color (lit "#F5F5F5") in
  let style :=
    transcript_style (py_max_int 14 size)
                     (str_or family (lit "Microsoft YaHei")) safe_color in
  [setStyleSheet style;
   setWindowOpacity (py_max_float FLOAT_0_1 (py_min_float opacity FLOAT_1))].

(** [ApplicationController.apply_display_config] *)
Definition apply_display_config (config : AppConfig) : list qt_call :=
  let d := display config in
  window_apply_display_config (font_family d) (font_size d) (font_color d)
                              (background_opacity d).

End Display.

(* ====================================================================== *)
(** ** widgets/settings_dialog.py: result_config *)
(* ====================================================================== *)

Module SettingsDialog.
Import Display.

(** What the widgets hold when the dialog is accepted. *)
Record t : Type := mk {
  _api_key : str;            (* _api_key.text() *)
  _model : str;              (* _model.text() *)
  _target_language : str;    (* _target_language.text() *)
  _font_combo : str;         (* _font_combo.currentFont().family() *)
  _font_size : Z;            (* _font_size.value() *)
  _font_color : str;         (* _font_color.text() *)
  _opacity_slider : Z        (* _opacity_slider.value() *)
}.

(** [value / 100.0]: the integer as a float, divided in binary64. *)
Definition over_100 (value : Z) : spec_float :=
  SFdiv 53 1024 (binary_normalize 53 1024 value 0 false) FLOAT_100.

Definition result_config (self : t) : AppConfig :=
  {| dashscope :=
       {| api_key := strip (_api_key self);
          model := str_or (strip (_model self))
                          (lit "qwen3-livetranslate-flash-realtime");
          target_language := str_or (strip (_target_language self))
                                    (lit "zh") |};
     display :=
       {| font_family := _font_combo self;
          font_size := _font_size self;
          font_color := str_or (strip (_font_color self)) (lit "#FFFFFF");
          background_opacity := over_100 (_opacity_slider self) |} |}.

End SettingsDialog.

(* ====================================================================== *)
(** ** controller.py: TranslationController *)
(* ====================================================================== *)

Module TranslationController.

(** The [TranslationWorker] thread as the controller sees it: the
    configuration it was built with, [isRunning()], and whether its stop
    event is set. *)
Record Worker : Type := mkWorker {
  worker_config : DashScopeConfig;
  isRunning : bool;
  stop_set : bool
}.

Record t : Type := mk {
  _config : DashScopeConfig;
  _worker : option Worker
}.

Inductive event : Type :=
| worker_created (cfg : DashScopeConfig)
| worker_start_call
| worker_stop_call
| worker_wait_call (msecs : Z)
| state_changed (running : bool).

(** [TranslationWorker(config, audio_config, parent=self)]: the
    constructor builds a [SystemAudioCapture], which looks for the
    loopback microphone and raises when there is none. *)
Definition new_worker (speaker : option LoopbackDevice.Speaker)
  (mics : list LoopbackDevice.Microphone) (cfg : DashScopeConfig)
  : result Worker :=
  _ <- LoopbackDevice._resolve_loopback_microphone speaker mics ;;
  Ok {| worker_config := cfg; isRunning := false; stop_set := false |}.

Definition is_running (self : t) : bool :=
  match _worker self with
  | Some w => isRunning w
  | None => false
  end.

Definition start (speaker : option LoopbackDevice.Speaker)
  (mics : list LoopbackDevice.Microphone) (self : t)
  : result unit * t * list event :=
  if match _worker self with Some w => isRunning w | None => false end
  then (Ok tt, self, [])
  else
    match new_worker speaker mics (_config self) with
    | Raise e => (Raise e, self, [])
    | Ok w =>
        (Ok tt,
         {| _config := _config self;
            _worker := Some {| worker_config := worker_config w;
                               isRunning := true;
                               stop_set := stop_set w |} |},
         [worker_created (_config self); worker_start_call;
          state_changed true])
    end.

Definition stop (self : t) : t * list event :=
  match _worker self with
  | None => (self, [])
  | Some _ =>
      ({| _config := _config self; _worker := None |},
       [worker_stop_call; worker_wait_call 5000; state_changed false])
  end.

Definition update_dashscope_config
  (speaker : option LoopbackDevice.Speaker)
  (mics : list LoopbackDevice.Microphone) (config : DashScopeConfig)
  (self : t) : result unit * t * list event :=
  let restart := is_running self in
  let (self1, evs1) := if restart then stop self else (self, []) in
  let self2 := {| _config := config; _worker := _worker self1 |} in
  if restart then
    let '(r, self3, evs2) := start speaker mics self2 in
    (r, self3, evs1 ++ evs2)
  else (Ok tt, self2, evs1).

Definition _handle_worker_finished (self : t) : t * list event :=
  ({| _config := _config self; _worker := None |}, [state_changed false]).

(** What can happen to a controller: its three requests, the worker
    thread coming to its end, and the slot of the thread's [finished]
    signal. A request that raises leaves the controller as the exception
    finds it. *)
Inductive happening : Type :=
| Start
| Stop
| Update (config : DashScopeConfig)
| ThreadEnds
| FinishedSignal.

Definition step (speaker : option LoopbackDevice.Speaker)
  (mics : list LoopbackDevice.Microphone) (self : t) (h : happening) : t :=
  match h with
  | Start => snd (fst (start speaker mics self))
  | Stop => fst (stop self)
  | Update config => snd (fst (update_dashscope_config speaker mics config self))
  | ThreadEnds =>
      {| _config := _config self;
         _worker :=
           match _worker self with
           | Some w => Some {| worker_config := worker_config w;
                               isRunning := false;
                               stop_set := stop_set w |}
           | None => None
           end |}
  | FinishedSignal => fst (_handle_worker_finished self)
  end.

(** A running worker was built with the configuration now in force. *)
Definition current (self : t) : Prop :=
  forall w, _worker self = Some w -> isRunning w = true ->
            worker_config w = _config self.

End TranslationController.

(* ====================================================================== *)
(** ** app.py: starting and pausing *)
(* ====================================================================== *)

Module StreamingControl.

(** [TranslatorHooks]: two callables acting on something of type [H] (in
    the application, the [TranslationController]). *)
Record TranslatorHooks (H : Type) : Type := mkHooks {
  hooks_start : H -> result unit * H;
  hooks_stop : H -> result unit * H
}.

Inductive event : Type :=
| hooks_start_call
| hooks_stop_call
| set_streaming_state (streaming : bool)
| streaming_state_changed (streaming : bool).

Definition with_streaming (self : ApplicationController) (b : bool)
  : ApplicationController :=
  {| _transcript_text := _transcript_text self; _is_streaming := b |}.

Section Handlers.
Context {H : Type}.
(** The attribute [_translator_hooks], set by [attach_translator]. *)
Variable _translator_hooks : option (TranslatorHooks H).

Definition _handle_start (self : ApplicationController) (h : H)
  : result unit * ApplicationController * H * list event :=
  match _translator_hooks with
  | None => (Ok tt, self, h, [])
  | Some hooks =>
      if _is_streaming self then (Ok tt, self, h, [])
      else
        match hooks_start hooks h with
        | (Raise e, h') => (Raise e, self, h', [hooks_start_call])
        | (Ok _, h') =>
            (Ok tt, with_streaming self true, h',
             [hooks_start_call; set_streaming_state true;
              streaming_state_changed true])
        end
  end.

Definition _handle_pause (self : ApplicationController) (h : H)
  : result unit * ApplicationController * H * list event :=
  match _translator_hooks with
  | None => (Ok tt, self, h, [])
  | Some hooks =>
      if negb (_is_streaming self) then (Ok tt, self, h, [])
      else
        match hooks_stop hooks h with
        | (Raise e, h') => (Raise e, self, h', [hooks_stop_call])
        | (Ok _, h') =>
            (Ok tt, with_streaming self false, h',
             [hooks_stop_call; set_streaming_state false;
              streaming_state_changed false])
        end
  end.

(** Requests from the window, handled one after the other until one
    raises. *)
Inductive request : Type :=
| start_requested
| pause_requested.

Fixpoint handle_all (requests : list request)
  (self : ApplicationController) (h : H)
  : result unit * ApplicationController * H * list event :=
  match requests with
  | [] => (Ok tt, self, h, [])
  | rq :: rest =>
      let '(r, self1, h1, evs) :=
        match rq with
        | start_requested => _handle_start self h
        | pause_requested => _handle_pause self h
        end in
      match r with
      | Raise e => (Raise e, self1, h1, evs)
      | Ok _ =>
          let '(r', self2, h2, evs') := handle_all rest self1 h1 in
          (r', self2, h2, evs ++ evs')
      end
  end.

End Handlers.

(** The calls on the hooks in a trace. *)
Definition hook_calls (evs : list event) : list event :=
  filter (fun ev => match ev with
                    | hooks_start_call | hooks_stop_call => true
                    | _ => false
                    end) evs.


End StreamingControl.

(* ====================================================================== *)
(** ** app.py and floating_window.py: the start/pause button *)
(* ====================================================================== *)

Module ButtonWiring.
Import StreamingControl.

(** [SubtitleMainWindow.set_streaming_state]: the flag of the window
    (the labels and styles set by [_update_controls] follow it). *)
Definition window_set_streaming_state (streaming : bool)
  (w : SubtitleMainWindow.t) : SubtitleMainWindow.t :=
  {| SubtitleMainWindow._transcript_edit :=
       SubtitleMainWindow._transcript_edit w;
     SubtitleMainWindow._suspend_text_signal :=
       SubtitleMainWindow._suspend_text_signal w;
     SubtitleMainWindow._autoscroll_enabled :=
       SubtitleMainWindow._autoscroll_enabled w;
     SubtitleMainWindow._is_streaming := streaming |}.

(** The calls on the window among the events of a handler, applied. *)
Definition apply_event (w : SubtitleMainWindow.t) (ev : event)
  : SubtitleMainWindow.t :=
  match ev with
  | set_streaming_state streaming => window_set_streaming_state streaming w
  | _ => w
  end.

(** [attach_translator]: the hooks are stored and the window is told the
    current state. *)
Definition attach_translator {H : Type} (hooks : TranslatorHooks H)
  (app : Wiring.App) : option (TranslatorHooks H) * Wiring.App :=
  (Some hooks,
   {| Wiring.controller := Wiring.controller app;
      Wiring.window :=
        window_set_streaming_state
          (_is_streaming (Wiring.controller app)) (Wiring.window app) |}).

(** A click on the start/pause button: [_toggle_start_pause] emits
    [pause_requested] or [start_requested], which are connected to
    [_handle_pause] and [_handle_start]. *)
Definition click {H : Type} (hooks : option (TranslatorHooks H))
  (app : Wiring.App) (h : H)
  : result unit * Wiring.App * H * list event :=
  let '(r, c, h', evs) :=
    match SubtitleMainWindow._toggle_start_pause (Wiring.window app) with
    | SubtitleMainWindow.pause_requested :: _ =>
        _handle_pause hooks (Wiring.controller app) h
    | SubtitleMainWindow.start_requested :: _ =>
        _handle_start hooks (Wiring.controller app) h
    | _ => (Ok tt, Wiring.controller app, h, [])
    end in
  (r, {| Wiring.controller := c;
         Wiring.window := fold_left apply_event evs (Wiring.window app) |},
   h', evs).

(** The window and the controller agree on whether streaming is on. *)
Definition agree (app : Wiring.App) : Prop :=
  SubtitleMainWindow._is_streaming (Wiring.window app)
  = _is_streaming (Wiring.controller app).

End ButtonWiring.

(* ====================================================================== *)
(** ** The life of a DashScopeRealtimeBackend object *)
(* ====================================================================== *)

Module Lifecycle.

(** The public methods, in any order. *)
Inductive method : Type :=
| Start
| SendAudio (pcm_chunk : bytes)
| PollTranslations
| Flush
| Stop.

Definition call (env : Env) (self : DashScopeRealtimeBackend.t) (m : method)
  : DashScopeRealtimeBackend.t :=
  match m with
  | Start => snd (fst (DashScopeRealtimeBackend.start env self))
  | SendAudio chunk =>
      snd (fst (DashScopeRealtimeBackend.send_audio env chunk self))
  | PollTranslations =>
      snd (fst (DashScopeRealtimeBackend.poll_translations env self))
  | Flush => snd (fst (DashScopeRealtimeBackend.flush self))
  | Stop => snd (fst (DashScopeRealtimeBackend.stop self))
  end.

End Lifecycle.

(* ====================================================================== *)
(** * Properties *)
(* ====================================================================== *)

(** ** Strings *)

Lemma str_eqb_eq (a b : str) : str_eqb a b = true <-> a = b.
Proof.
  revert b; induction a as [|x a IH]; intros [|y b]; simpl;
    try (split; [discriminate | discriminate]); try tauto.
  rewrite andb_true_iff, N.eqb_eq, IH.
  split; [intros [-> ->]; reflexivity | intros H; inversion H; auto].
Qed.

Lemma str_eqb_refl (a : str) : str_eqb a a = true.
Proof. apply str_eqb_eq; reflexivity. Qed.

Lemma str_eqb_neq (a b : str) : str_eqb a b = false <-> a <> b.
Proof.
  rewrite <- str_eqb_eq. destruct (str_eqb a b); split; congruence.
Qed.

Lemma truthy_false (s : str) : truthy s = false <-> s = [].
Proof. destruct s; simpl; split; congruence. Qed.

Lemma truthy_true (s : str) : truthy s = true <-> s <> [].
Proof. destruct s; simpl; split; congruence. Qed.

Lemma startswith_spec (s p : str) : startswith s p = true <-> is_prefix p s.
Proof.
  unfold is_prefix. revert s; induction p as [|y p IH]; intros s; simpl.
  - split; [intros _; exists s; reflexivity | reflexivity].
  - destruct s as [|x s].
    + split; [discriminate | intros [t H]; discriminate].
    + rewrite andb_true_iff, N.eqb_eq, IH. split.
      * intros [-> [t ->]]. exists t. reflexivity.
      * intros [t H]. inversion H. split; [reflexivity | exists t; reflexivity].
Qed.

Lemma endswith_spec (s p : str) : endswith s p = true <-> is_suffix p s.
Proof.
  unfold endswith, is_suffix. rewrite andb_true_iff, Nat.leb_le, str_eqb_eq.
  split.
  - intros [_ H]. exists (firstn (length s - length p) s).
    rewrite <- H at 2. symmetry. apply firstn_skipn.
  - intros [t ->]. rewrite length_app. split; [lia|].
    replace (length t + length p - length p) with (length t) by lia.
    rewrite skipn_app, skipn_all, Nat.sub_diag. reflexivity.
Qed.

Lemma last_chars_overlaps (P F : str) (j : nat) :
  1 <= j -> j <= length P ->
  (startswith F (last_chars j P) = true <-> overlaps P F j).
Proof.
  intros H1 H2. unfold overlaps, last_chars. destruct j as [|j]; [lia|].
  rewrite startswith_spec. tauto.
Qed.

Lemma is_prefix_length (p s : str) : is_prefix p s -> length p <= length s.
Proof. intros [t ->]. rewrite length_app. lia. Qed.

Lemma overlaps_length (P F : str) (k : nat) :
  overlaps P F k -> k <= length F.
Proof.
  intros [Hk Hp]. apply is_prefix_length in Hp.
  rewrite length_skipn in Hp. lia.
Qed.

(** ** The overlap scan *)

Lemma overlap_scan_spec (P F : str) (size : nat) :
  let k := overlap_scan P F size in
  k <= size /\
  (k = 0 \/ (1 <= k /\ startswith F (last_chars k P) = true)) /\
  (forall j, k < j -> j <= size -> startswith F (last_chars j P) = false).
Proof.
  induction size as [|n IH]; cbn zeta.
  - simpl. split; [lia | split; [left; reflexivity | intros; lia]].
  - cbn [overlap_scan].
    destruct (startswith F (last_chars (S n) P)) eqn:E.
    + split; [lia | split; [right; split; [lia | exact E] | intros; lia]].
    + cbn zeta in IH. destruct IH as (Hle & Hk & Hmax).
      split; [lia | split; [exact Hk |]].
      intros j Hlt Hj. destruct (Nat.eq_dec j (S n)) as [->|Hne];
        [exact E | apply Hmax; lia].
Qed.

Lemma _longest_overlap_spec (P F : str) :
  longest_overlap P F (_longest_overlap P F) /\
  _longest_overlap P F <= Nat.min (length P) (length F).
Proof.
  unfold _longest_overlap, longest_overlap. cbn zeta.
  destruct (overlap_scan_spec P F (Nat.min (length P) (length F)))
    as (Hle & Hk & Hmax).
  cbn zeta in *. set (k := overlap_scan P F _) in *.
  split; [split | exact Hle].
  - destruct Hk as [->|[H1 H2]]; [left; reflexivity | right].
    split; [exact H1|]. apply last_chars_overlaps; [lia | lia | exact H2].
  - intros j Hlt Hj Hov.
    apply last_chars_overlaps in Hov; [| lia | lia].
    rewrite Hmax in Hov; [discriminate | lia | lia].
Qed.

(** ** The reconciler, branch by branch *)

Section Reconciler.
Variable self : ApplicationController.
Variable text : str.
Let P := _transcript_text self.
Let F := strip text.

Lemma reconcile_blank : F = [] -> add_history_entry self text = (self, []).
Proof.
  unfold F. intros H. unfold add_history_entry. cbn zeta. rewrite H.
  reflexivity.
Qed.

Lemma reconcile_first :
  F <> [] -> P = [] ->
  add_history_entry self text
  = (with_transcript self F, [set_transcript F]).
Proof.
  unfold F, P. intros HF HP. unfold add_history_entry. cbn zeta.
  apply truthy_true in HF. rewrite HF, HP. reflexivity.
Qed.

Lemma reconcile_repeat :
  F <> [] -> P <> [] -> F = P -> add_history_entry self text = (self, []).
Proof.
  unfold F, P. intros HF HP HE. unfold add_history_entry. cbn zeta.
  apply truthy_true in HF, HP. rewrite HF, HP. cbn [negb].
  rewrite HE, str_eqb_refl. reflexivity.
Qed.

Lemma reconcile_extend :
  F <> [] -> P <> [] -> F <> P -> is_prefix P F ->
  add_history_entry self text
  = (with_transcript self F, [append_transcript (skipn (length P) F)]).
Proof.
  unfold F, P. intros HF HP HN HPre. unfold add_history_entry. cbn zeta.
  assert (Hadd : truthy (from_index (length (_transcript_text self))
                                    (strip text)) = true).
  { apply truthy_true. unfold from_index. destruct HPre as [t Ht].
    rewrite Ht, skipn_app, skipn_all, Nat.sub_diag. simpl.
    intros ->. apply HN. rewrite Ht, app_nil_r. reflexivity. }
  apply truthy_true in HF, HP. apply str_eqb_neq in HN.
  apply startswith_spec in HPre.
  rewrite HF, HP, HN, HPre, Hadd. reflexivity.
Qed.

Lemma reconcile_subsumed :
  F <> [] -> P <> [] -> F <> P -> ~ is_prefix P F -> is_suffix F P ->
  add_history_entry self text = (self, []).
Proof.
  unfold F, P. intros HF HP HN HPre HSuf. unfold add_history_entry. cbn zeta.
  apply truthy_true in HF, HP. apply str_eqb_neq in HN.
  apply endswith_spec in HSuf.
  destruct (startswith (strip text) (_transcript_text self)) eqn:E;
    [apply startswith_spec in E; contradiction|].
  rewrite HF, HP, HN, HSuf. reflexivity.
Qed.

Lemma overlap_remainder :
  ~ is_suffix F P -> 0 < _longest_overlap P F ->
  skipn (_longest_overlap P F) F <> [].
Proof.
  intros HSuf Hk Hnil.
  destruct (_longest_overlap_spec P F) as [[Hov _] Hle].
  destruct Hov as [H0|[_ Hov]]; [lia|].
  pose proof (overlaps_length Hov) as HlF.
  assert (Hlen : length F <= _longest_overlap P F).
  { assert (H := f_equal (@length _) Hnil). rewrite length_skipn in H.
    simpl in H. lia. }
  assert (Hk' : _longest_overlap P F = length F) by lia.
  rewrite Hk' in Hov. destruct Hov as [HlP [t Ht]].
  assert (t = []).
  { assert (H := f_equal (@length _) Ht).
    rewrite length_app, length_skipn in H.
    destruct t; [reflexivity | simpl in H; lia]. }
  subst t. rewrite app_nil_r in Ht.
  apply HSuf. exists (firstn (length P - length F) P).
  transitivity (firstn (length P - length F) P
                ++ skipn (length P - length F) P);
    [symmetry; apply firstn_skipn | f_equal; symmetry; exact Ht].
Qed.

Lemma reconcile_overlap :
  F <> [] -> P <> [] -> F <> P -> ~ is_prefix P F -> ~ is_suffix F P ->
  0 < _longest_overlap P F ->
  add_history_entry self text
  = (with_transcript self (P ++ skipn (_longest_overlap P F) F),
     [append_transcript (skipn (_longest_overlap P F) F)]).
Proof.
  intros HF HP HN HPre HSuf Hk.
  pose proof (overlap_remainder HSuf Hk) as Hrem.
  unfold F, P in *. unfold add_history_entry. cbn zeta.
  apply truthy_true in HF, HP, Hrem. apply str_eqb_neq in HN.
  destruct (startswith (strip text) (_transcript_text self)) eqn:E1;
    [apply startswith_spec in E1; contradiction|].
  destruct (endswith (_transcript_text self) (strip text)) eqn:E2;
    [apply endswith_spec in E2; contradiction|].
  apply Nat.ltb_lt in Hk. unfold from_index.
  rewrite HF, HP, HN, Hk, Hrem. reflexivity.
Qed.

Lemma reconcile_unrelated :
  F <> [] -> P <> [] -> F <> P -> ~ is_prefix P F -> ~ is_suffix F P ->
  _longest_overlap P F = 0 ->
  let separator := if endswith P [LF] then [] else [LF] in
  add_history_entry self text
  = (with_transcript self (P ++ separator ++ F),
     [append_transcript (separator ++ F)]).
Proof.
  intros HF HP HN HPre HSuf Hk. cbn zeta.
  unfold F, P in *. unfold add_history_entry. cbn zeta.
  apply truthy_true in HF, HP. apply str_eqb_neq in HN.
  destruct (startswith (strip text) (_transcript_text self)) eqn:E1;
    [apply startswith_spec in E1; contradiction|].
  destruct (endswith (_transcript_text self) (strip text)) eqn:E2;
    [apply endswith_spec in E2; contradiction|].
  rewrite HF, HP, HN, Hk. cbn [negb Nat.ltb Nat.leb orb].
  rewrite orb_false_r. reflexivity.
Qed.

End Reconciler.

Lemma reconcile_step_extends (self : ApplicationController) (text : str) :
  exists t,
    _transcript_text (fst (add_history_entry self text))
    = _transcript_text self ++ t.
Proof.
  unfold add_history_entry. cbn zeta.
  destruct (truthy (strip text)); cbn [negb];
    [| exists []; rewrite app_nil_r; reflexivity].
  destruct (truthy (_transcript_text self)) eqn:EP; cbn [negb].
  2:{ apply truthy_false in EP. rewrite EP. exists (strip text). reflexivity. }
  destruct (str_eqb _ _); [exists []; rewrite app_nil_r; reflexivity|].
  destruct (startswith _ _) eqn:ES.
  { apply startswith_spec in ES. destruct ES as [t Ht].
    destruct (truthy (from_index _ _));
      cbn [fst with_transcript _transcript_text];
      [exists t; exact Ht | exists []; rewrite app_nil_r; reflexivity]. }
  destruct (endswith _ (strip text));
    [exists []; rewrite app_nil_r; reflexivity|].
  destruct (0 <? _).
  - destruct (truthy (from_index _ _));
      cbn [fst with_transcript _transcript_text];
      [eexists; reflexivity | exists []; rewrite app_nil_r; reflexivity].
  - cbn [fst with_transcript _transcript_text]. eexists; reflexivity.
Qed.

Lemma feed_extends (fragments : list str) :
  forall self, exists t,
    _transcript_text (feed self fragments) = _transcript_text self ++ t.
Proof.
  induction fragments as [|f rest IH]; intros self; simpl.
  - exists []. rewrite app_nil_r. reflexivity.
  - destruct (IH (fst (add_history_entry self f))) as [t2 H2].
    destruct (reconcile_step_extends self f) as [t1 H1].
    exists (t1 ++ t2). rewrite H2, H1, app_assoc. reflexivity.
Qed.

(** ** Claims about the reconciler *)

(** C1. For a fragment whose trimmed text [F] is not empty, the reconciler
    applies the six rules in order to the previous transcript [P]:
    (1) [P] empty: [P] becomes [F], the increment is [F];
    (2) [F = P]: nothing is appended;
    (3) [F] starts with [P]: the increment is [F] beyond [P], [P] becomes [F];
    (4) [P] ends with [F]: nothing is appended, [P] is unchanged;
    (5) otherwise, with [k] the longest suffix of [P] that is a prefix of
        [F] (sizes tried from [min(|P|,|F|)] down to 1) and [k > 0]: the
        increment is [F] without its first [k] characters, appended to [P];
    (6) no overlap: the increment is a line feed followed by [F] (no line
        feed when [P] ends with one), appended to [P].
    The increment is the text of the single window call made, if any. *)
Theorem add_history_entry_six_rules :
  forall (self : ApplicationController) (text : str),
    let P := _transcript_text self in
    let F := strip text in
    let P' := _transcript_text (fst (add_history_entry self text)) in
    let calls := snd (add_history_entry self text) in
    let inc := increment calls in
    F <> [] ->
    (calls = [] \/ calls = [set_transcript inc]
     \/ calls = [append_transcript inc]) /\
    (P = [] -> P' = F /\ inc = F) /\
    (P <> [] -> F = P -> P' = P /\ inc = []) /\
    (P <> [] -> F <> P -> is_prefix P F ->
       inc = skipn (length P) F /\ P' = F) /\
    (P <> [] -> F <> P -> ~ is_prefix P F -> is_suffix F P ->
       inc = [] /\ P' = P) /\
    (P <> [] -> F <> P -> ~ is_prefix P F -> ~ is_suffix F P ->
       let k := _longest_overlap P F in
       longest_overlap P F k /\
       (0 < k -> inc = skipn k F /\ P' = P ++ inc) /\
       (k = 0 -> is_suffix [LF] P -> inc = F /\ P' = P ++ inc) /\
       (k = 0 -> ~ is_suffix [LF] P -> inc = LF :: F /\ P' = P ++ inc)).
Proof.
  intros self text P F P' calls inc HF.
  assert (Hinc : forall c, increment [c] =
                           match c with
                           | set_transcript t => t
                           | append_transcript t => t
                           end).
  { intros c. unfold increment. simpl. apply app_nil_r. }
  split; [| split; [| split; [| split; [| split]]]].
  - unfold inc, calls. unfold add_history_entry. cbn zeta.
    repeat match goal with
           | |- context [if ?b then _ else _] => destruct b
           end; cbn [snd];
      first [ left; reflexivity
            | right; left; rewrite Hinc; reflexivity
            | right; right; rewrite Hinc; reflexivity ].
  - intros HP. unfold P', inc, calls.
    rewrite (reconcile_first self text HF HP). cbn [fst snd].
    rewrite Hinc. split; reflexivity.
  - intros HP HE. unfold P', inc, calls.
    rewrite (reconcile_repeat self text HF HP HE). split; reflexivity.
  - intros HP HN Hpre. unfold P', inc, calls.
    rewrite (reconcile_extend self text HF HP HN Hpre). cbn [fst snd].
    rewrite Hinc. split; reflexivity.
  - intros HP HN Hpre Hsuf. unfold P', inc, calls.
    rewrite (reconcile_subsumed self text HF HP HN Hpre Hsuf).
    split; reflexivity.
  - intros HP HN Hpre Hsuf k.
    split; [exact (proj1 (_longest_overlap_spec P F))|].
    split; [| split].
    + intros Hk. unfold P', inc, calls.
      rewrite (reconcile_overlap self text HF HP HN Hpre Hsuf Hk).
      cbn [fst snd]. rewrite Hinc. split; reflexivity.
    + intros Hk HLF. unfold P', inc, calls.
      rewrite (reconcile_unrelated self text HF HP HN Hpre Hsuf Hk).
      cbn [fst snd]. rewrite Hinc. apply endswith_spec in HLF.
      fold P. rewrite HLF. split; reflexivity.
    + intros Hk HLF. unfold P', inc, calls.
      rewrite (reconcile_unrelated self text HF HP HN Hpre Hsuf Hk).
      cbn [fst snd]. rewrite Hinc.
      destruct (endswith (_transcript_text self) [LF]) eqn:E;
        [apply endswith_spec in E; contradiction|].
      split; reflexivity.
Qed.

(** C2. Every call of [add_history_entry] leaves the transcript unchanged
    or extends it at the end, so over any sequence of fragments the earlier
    transcript stays a prefix of the later one and its length never
    decreases. *)
Theorem transcript_monotone :
  (forall (self : ApplicationController) (text : str),
      let P := _transcript_text self in
      let P' := _transcript_text (fst (add_history_entry self text)) in
      (P' = P \/ exists t, t <> [] /\ P' = P ++ t)
      /\ length P <= length P') /\
  (forall (self : ApplicationController) (fragments : list str),
      let P := _transcript_text self in
      let P' := _transcript_text (feed self fragments) in
      is_prefix P P' /\ length P <= length P').
Proof.
  split.
  - intros self text P P'.
    destruct (reconcile_step_extends self text) as [t Ht].
    fold P P' in Ht. split.
    + destruct t as [|c t]; [left; rewrite Ht; apply app_nil_r|].
      right. exists (c :: t). split; [discriminate | exact Ht].
    + rewrite Ht, length_app. lia.
  - intros self fragments P P'.
    destruct (feed_extends fragments self) as [t Ht]. fold P P' in Ht.
    split; [exists t; exact Ht | rewrite Ht, length_app; lia].
Qed.

(** C9. A text that is empty after stripping white space (the empty
    string, or white space only) changes nothing: the controller is
    returned as it was and no window call is made. *)
Theorem add_history_entry_blank :
  forall (self : ApplicationController) (text : str),
    strip text = [] ->
    add_history_entry self text = (self, []).
Proof.
  intros self text H. unfold add_history_entry. cbn zeta. rewrite H.
  reflexivity.
Qed.

Lemma add_history_entry_six_rules_witness :
  strip (lit " sat on the mat ") <> [] /\
  _transcript_text
    (fst (add_history_entry (mkController (lit "the cat sat") true)
                            (lit " sat on the mat ")))
  = lit "the cat sat on the mat".
Proof.
  assert (H : strip (lit " sat on the mat ") <> []) by (vm_compute; discriminate).
  split; [exact H|].
  destruct (add_history_entry_six_rules
              (mkController (lit "the cat sat") true)
              (lit " sat on the mat ") H)
    as (_ & _ & _ & _ & _ & R).
  assert (HP : lit "the cat sat" <> []) by (vm_compute; discriminate).
  assert (HN : strip (lit " sat on the mat ") <> lit "the cat sat")
    by (vm_compute; discriminate).
  assert (Hpre : ~ is_prefix (lit "the cat sat") (strip (lit " sat on the mat ")))
    by (intros Hp; apply startswith_spec in Hp; vm_compute in Hp; discriminate).
  assert (Hsuf : ~ is_suffix (strip (lit " sat on the mat ")) (lit "the cat sat"))
    by (intros Hs; apply endswith_spec in Hs; vm_compute in Hs; discriminate).
  destruct (R HP HN Hpre Hsuf) as (_ & R5 & _).
  assert (Hk : 0 < _longest_overlap (lit "the cat sat")
                                    (strip (lit " sat on the mat ")))
    by (vm_compute; lia).
  destruct (R5 Hk) as [Hinc HP'].
  cbn [_transcript_text] in HP'. rewrite HP', Hinc. vm_compute. reflexivity.
Defined.

Lemma add_history_entry_blank_witness :
  strip (lit "  ") = [] /\
  add_history_entry (mkController (lit "hello") true) (lit "  ")
  = (mkController (lit "hello") true, []).
Proof.
  split; [reflexivity|].
  apply (add_history_entry_blank (mkController (lit "hello") true) (lit "  ")).
  reflexivity.
Defined.

(** The examples of the testable properties. *)

Example overlap_example :
  _longest_overlap (lit "the cat sat") (lit "sat on the mat") = 3.
Proof. reflexivity. Qed.

Example reconcile_prefix_growth_example :
  add_history_entry (mkController (lit "hello") true) (lit "hello world")
  = (mkController (lit "hello world") true,
     [append_transcript (lit " world")]).
Proof. reflexivity. Qed.

Example reconcile_overlap_example :
  add_history_entry (mkController (lit "the cat sat") true)
                    (lit "sat on the mat")
  = (mkController (lit "the cat sat on the mat") true,
     [append_transcript (lit " on the mat")]).
Proof. reflexivity. Qed.

Example reconcile_unrelated_example :
  add_history_entry (mkController (lit "done.") true) (lit "Hello there")
  = (mkController (lit "done." ++ LF :: lit "Hello there") true,
     [append_transcript (LF :: lit "Hello there")]).
Proof. reflexivity. Qed.

Example reconcile_subsumed_example :
  add_history_entry (mkController (lit "hello world") true) (lit "world")
  = (mkController (lit "hello world") true, []).
Proof. reflexivity. Qed.

Example reconcile_idempotent_example :
  let self1 := fst (add_history_entry (mkController [] true) (lit "hello")) in
  add_history_entry self1 (lit "hello") = (self1, []).
Proof. reflexivity. Qed.

(* ====================================================================== *)
(** ** DashScopeRealtimeBackend *)
(* ====================================================================== *)

Module DashScopeProps.
Import DashScopeRealtimeBackend.

(** *** base64 is reversible *)

Ltac div_lia := zify; Z.to_euclidean_division_equations; lia.

Lemma b64_value_char (n : N) : (n < 64)%N -> b64_value (b64_char n) = n.
Proof.
  intros H. unfold b64_char, b64_value.
  repeat match goal with
         | |- context [(?a <? ?b)%N] => destruct (N.ltb_spec a b)
         | |- context [(?a =? ?b)%N] => destruct (N.eqb_spec a b)
         | |- context [(?a <=? ?b)%N] => destruct (N.leb_spec a b)
         | _ => cbn [andb]
         end; lia.
Qed.

Lemma b64_char_not_pad (n : N) : (b64_char n =? PAD)%N = false.
Proof.
  apply N.eqb_neq. unfold b64_char, PAD.
  repeat match goal with
         | |- context [(?a <? ?b)%N] => destruct (N.ltb_spec a b)
         | |- context [(?a =? ?b)%N] => destruct (N.eqb_spec a b)
         end; lia.
Qed.

Lemma byte_of_eq (n : N) (x : Byte.byte) :
  (n mod 256 = Byte.to_N x)%N -> byte_of n = x.
Proof.
  intros H. unfold byte_of. rewrite H, Byte.of_to_N. reflexivity.
Qed.

(** Encoding then decoding each kind of group gives the bytes back. *)
Lemma b64_sextets (a b c d : N) (rest : str) :
  (a < 64 -> b < 64 -> c < 64 -> d < 64 ->
   b64decode (b64_char a :: b64_char b :: b64_char c :: b64_char d :: rest)
   = let n := a * 262144 + b * 4096 + c * 64 + d in
     byte_of (n / 65536) :: byte_of (n / 256) :: byte_of n
     :: b64decode rest)%N.
Proof.
  intros Ha Hb Hc Hd. cbn [b64decode]. cbv zeta.
  rewrite !b64_char_not_pad, !b64_value_char by assumption. reflexivity.
Qed.

Lemma b64_group (x y z : Byte.byte) (rest : bytes) :
  b64decode (b64encode (x :: y :: z :: rest))
  = x :: y :: z :: b64decode (b64encode rest).
Proof.
  cbn [b64encode]. cbv zeta.
  pose proof (Byte.to_N_bounded x) as Hx.
  pose proof (Byte.to_N_bounded y) as Hy.
  pose proof (Byte.to_N_bounded z) as Hz.
  set (n := (Byte.to_N x * 65536 + Byte.to_N y * 256 + Byte.to_N z)%N).
  assert (Hn : (n < 16777216)%N) by (subst n; lia).
  rewrite b64_sextets by div_lia. cbv zeta.
  assert (Hsum : ((n / 262144) * 262144 + ((n / 4096) mod 64) * 4096
                  + ((n / 64) mod 64) * 64 + n mod 64 = n)%N) by div_lia.
  rewrite Hsum.
  f_equal; [apply byte_of_eq; subst n; div_lia|].
  f_equal; [apply byte_of_eq; subst n; div_lia|].
  f_equal. apply byte_of_eq; subst n; div_lia.
Qed.

Lemma b64_tail1 (x : Byte.byte) : b64decode (b64encode [x]) = [x].
Proof.
  cbn [b64encode]. cbv zeta. pose proof (Byte.to_N_bounded x) as Hx.
  cbn [b64decode]. cbv zeta.
  replace (PAD =? PAD)%N with true by reflexivity.
  rewrite !b64_value_char by div_lia.
  f_equal. apply byte_of_eq. div_lia.
Qed.

Lemma b64_tail2 (x y : Byte.byte) : b64decode (b64encode [x; y]) = [x; y].
Proof.
  cbn [b64encode]. cbv zeta.
  pose proof (Byte.to_N_bounded x) as Hx.
  pose proof (Byte.to_N_bounded y) as Hy.
  cbn [b64decode]. cbv zeta.
  rewrite b64_char_not_pad.
  replace (PAD =? PAD)%N with true by reflexivity.
  rewrite !b64_value_char by div_lia.
  f_equal; [apply byte_of_eq; div_lia|].
  f_equal. apply byte_of_eq; div_lia.
Qed.

Lemma b64_roundtrip (b : bytes) : b64decode (b64encode b) = b.
Proof.
  assert (H : forall n (b : bytes), length b <= n ->
                                    b64decode (b64encode b) = b).
  { clear b. induction n as [|n IH]; intros b Hlen.
    - destruct b; [reflexivity | simpl in Hlen; lia].
    - destruct b as [|x [|y [|z rest]]].
      + reflexivity.
      + apply b64_tail1.
      + apply b64_tail2.
      + rewrite b64_group. rewrite IH; [reflexivity | simpl in Hlen; lia]. }
  apply (H (length b)). lia.
Qed.

(** *** Helper facts *)

Lemma send_audio_open (env : Env) (chunk : bytes) (self : t) (ws : WebSocket) :
  _ws self = Some ws -> chunk <> [] ->
  send_audio env chunk self
  = (match send_fault ws with Some e => Raise e | None => Ok tt end,
     with_counter self (_event_counter self + 1),
     [audio_frame env (_event_counter self + 1) chunk]).
Proof.
  intros Hws Hc. unfold send_audio. rewrite Hws.
  destruct chunk as [|c chunk]; [contradiction|]. cbn [orb].
  unfold _next_event_id, _send_json. cbn [_ws with_counter _event_counter].
  rewrite Hws. reflexivity.
Qed.

Lemma send_audio_noop (env : Env) (chunk : bytes) (self : t) :
  _ws self = None \/ chunk = [] ->
  send_audio env chunk self = (Ok tt, self, []).
Proof.
  intros [H|H]; unfold send_audio; rewrite H;
    [reflexivity | destruct (_ws self); reflexivity].
Qed.

Lemma drain_collected (env : Env) (earlier : list str) :
  forall (later : list recv_event) (ts ts' : list pyval),
    collected env earlier ts = Some ts' ->
    drain env (map Frame earlier ++ later) ts
    = (let '(r, rest, calls) := drain env later ts' in
       (r, rest, repeat recv_call (length earlier) ++ calls)).
Proof.
  induction earlier as [|p earlier IH]; intros later ts ts' H.
  - simpl in H. injection H as <-. simpl.
    destruct (drain env later ts) as [[r rest] calls]. reflexivity.
  - simpl in H. cbn [map app drain].
    destruct (json_loads env p) as [data|]; [|discriminate].
    destruct (dispatch env data ts) as [ts1|e]; [|discriminate].
    rewrite (IH later ts1 ts' H).
    destruct (drain env later ts') as [[r rest] calls]. reflexivity.
Qed.

Lemma dispatch_error (env : Env) (d : list (str * pyval))
  (ts : list pyval) :
  assoc d (lit "type") = Some (PyStr (lit "error")) ->
  dispatch env (PyDict d) ts
  = (details <- error_details env (PyDict d) ;;
     Raise (RuntimeError (MSG_SERVICE_ERROR ++ format_value env details))).
Proof.
  intros H. unfold dispatch. cbn [py_get rbind]. rewrite H. reflexivity.
Qed.

Lemma error_details_rule (env : Env) (d : list (str * pyval)) :
  let data := PyDict d in
  let message := field data (lit "message") in
  let nested := field (field data (lit "error")) (lit "message") in
  error_details env data
  = Ok (if py_truthy message then message
        else if is_dict (field data (lit "error")) && py_truthy nested
             then nested
             else PyStr (json_dumps env false data)).
Proof.
  cbn zeta. unfold error_details, field. cbn [py_get rbind].
  set (m := match assoc d (lit "message") with
            | Some v => v
            | None => PyNone
            end).
  set (err := match assoc d (lit "error") with
              | Some v => v
              | None => PyNone
              end).
  destruct (py_truthy m) eqn:Em; cbn [negb rbind].
  - rewrite Em. reflexivity.
  - destruct err as [| | | | |items|fields]; cbn [is_dict andb py_get rbind];
      try (rewrite Em; reflexivity).
    generalize (match assoc fields (lit "message") with
                | Some v => v
                | None => PyNone
                end).
    intros n. destruct (py_truthy n); reflexivity.
Qed.

(** *** Claims *)

(** C10. With no socket (never started, or stopped), [poll_translations]
    returns the empty list, raises nothing, calls nothing on the socket
    library and leaves the object as it is; the send path ([_send_json],
    and [_send_session_update] through it) raises [RuntimeError] in the
    same situation. *)
Theorem poll_translations_without_session :
  forall (env : Env) (self : t),
    _ws self = None ->
    poll_translations env self = (Ok [], self, []) /\
    (forall message,
        _send_json env message self
        = (Raise (RuntimeError MSG_NO_SOCKET), self, [])) /\
    fst (_send_session_update env self)
    = (Raise (RuntimeError MSG_NO_SOCKET),
       with_counter self (_event_counter self + 1)) /\
    (forall other : t,
        let stopped := snd (fst (stop other)) in
        poll_translations env stopped = (Ok [], stopped, [])).
Proof.
  intros env self H. split; [| split; [| split]].
  - unfold poll_translations. rewrite H. reflexivity.
  - intros message. unfold _send_json. rewrite H. reflexivity.
  - unfold _send_session_update, _next_event_id, _send_json.
    cbn [_ws with_counter]. rewrite H. reflexivity.
  - intros other. unfold stop.
    destruct (_ws other) eqn:E; cbn [fst snd]; unfold poll_translations;
      [reflexivity | rewrite E; reflexivity].
Qed.

Lemma poll_translations_without_session_witness :
  _ws (Demo.client None) = None /\
  poll_translations Demo.env (Demo.client None)
  = (Ok [], Demo.client None, []).
Proof.
  split; [reflexivity|].
  apply (poll_translations_without_session Demo.env (Demo.client None)).
  reflexivity.
Defined.

(** C5, as the code has it. [stop()] on an object without a socket does
    nothing, so a second [stop()] does nothing; with a socket it calls
    [close()] once and always forgets the socket, keeping the rest of the
    object; its result is that of [close()]: an exception raised by
    [close()] is raised by [stop()] after the socket is forgotten. *)
Theorem stop_clears_connection :
  forall (self : t),
    let '(r, self', calls) := stop self in
    _ws self' = None /\
    self' = with_ws self None /\
    stop self' = (Ok tt, self', []) /\
    (_ws self = None -> r = Ok tt /\ self' = self /\ calls = []) /\
    (forall ws, _ws self = Some ws ->
                calls = [close_call] /\
                r = match close_fault ws with
                    | Some e => Raise e
                    | None => Ok tt
                    end).
Proof.
  intros self. unfold stop. destruct self as [c s [ws|] n]; cbn;
    (split; [reflexivity | split; [reflexivity | split; [reflexivity | split]]]).
  - discriminate.
  - intros ws' Hws. injection Hws as <-. split; reflexivity.
  - intros _. repeat split.
  - intros ws' Hws. discriminate.
Qed.

(** C5 fails as stated: when [close()] raises, [stop()] raises. *)
Lemma stop_raises_when_close_raises :
  fst (fst (stop (Demo.client (Some Demo.stuck_socket))))
  = Raise (OSError (lit "Bad file descriptor")).
Proof. reflexivity. Qed.

(** C7. [send_audio] does nothing when there is no socket or the chunk is
    empty. Otherwise it increments the event counter to [n], and hands
    the socket exactly one frame: the JSON text of an
    [input_audio_buffer.append] event whose [audio] is the base64 text of
    the chunk (from which the chunk is recovered) and whose [event_id] is
    [event_<clock reading>_<n>]; the result is that of the socket's
    [send()]. Over successive sends the counters are consecutive, and no
    other method lowers the counter. *)
Theorem send_audio_frames :
  forall (env : Env) (chunk : bytes) (self : t),
    (_ws self = None \/ chunk = [] ->
     send_audio env chunk self = (Ok tt, self, [])) /\
    (forall ws, _ws self = Some ws -> chunk <> [] ->
       let n := (_event_counter self + 1)%N in
       let event_id :=
         lit "event_" ++ dec (clock_ms env n) ++ lit "_" ++ dec n in
       send_audio env chunk self
       = (match send_fault ws with Some e => Raise e | None => Ok tt end,
          with_counter self n,
          [send_call
             (json_dumps env true
                (PyDict
                   [(lit "event_id", PyStr event_id);
                    (lit "type", PyStr (lit "input_audio_buffer.append"));
                    (lit "audio", PyStr (b64encode chunk))]))])
       /\ b64decode (b64encode chunk) = chunk
       /\ (_event_counter self < n)%N) /\
    (forall ws chunks, _ws self = Some ws -> Forall (fun c => c <> []) chunks ->
       snd (send_all env chunks self)
       = audio_frames env (_event_counter self + 1) chunks) /\
    (_event_counter (snd (fst (poll_translations env self)))
     = _event_counter self /\
     _event_counter (snd (fst (stop self))) = _event_counter self /\
     _event_counter (snd (fst (flush self))) = _event_counter self /\
     (_event_counter self <= _event_counter (snd (fst (start env self))))%N).
Proof.
  intros env chunk self. split; [| split; [| split]].
  - apply send_audio_noop.
  - intros ws Hws Hc n event_id. split; [| split].
    + rewrite (send_audio_open env self Hws Hc). reflexivity.
    + apply b64_roundtrip.
    + unfold n. lia.
  - intros ws chunks. revert self ws.
    induction chunks as [|c chunks IH]; intros self ws Hws Hall.
    + reflexivity.
    + inversion Hall as [|? ? Hc Hrest]; subst.
      cbn [send_all audio_frames].
      rewrite (send_audio_open env self Hws Hc).
      specialize (IH (with_counter self (_event_counter self + 1)) ws Hws Hrest).
      destruct (send_all env chunks _) as [self2 calls'].
      cbn [snd] in *. rewrite IH. reflexivity.
  - split; [| split; [| split]].
    + unfold poll_translations. destruct (_ws self) as [ws|]; [|reflexivity].
      destruct (drain env (pending ws) []) as [[r rest] calls]. reflexivity.
    + unfold stop. destruct (_ws self); reflexivity.
    + reflexivity.
    + unfold start. destruct (negb _); [cbn; lia|].
      destruct (create_connection env _ _) as [ws|e]; [|cbn; lia].
      unfold _send_session_update, _next_event_id, _send_json. cbn. lia.
Qed.

(** C3. When the frames read before it are dispatched without an
    exception and an event of type [error] is then read,
    [poll_translations] raises [RuntimeError] whose text is the fixed
    prefix followed by the details: the event's [message] if it is
    truthy, else the [message] of a nested [error] object if that is
    truthy, else the serialized event. The texts collected so far are
    not returned, and the frames that carried them have been read off
    the socket. A message string such as [quota exceeded] appears in the
    error text as it is. *)
Theorem poll_translations_error_event :
  forall (env : Env) (self : t) (ws : WebSocket)
         (earlier : list str) (texts : list pyval)
         (payload : str) (data : pyval) (later : list recv_event),
    _ws self = Some ws ->
    pending ws = map Frame earlier ++ Frame payload :: later ->
    collected env earlier [] = Some texts ->
    json_loads env payload = Some data ->
    is_dict data = true ->
    field data (lit "type") = PyStr (lit "error") ->
    let message := field data (lit "message") in
    let nested := field (field data (lit "error")) (lit "message") in
    let details :=
      if py_truthy message then message
      else if is_dict (field data (lit "error")) && py_truthy nested
           then nested
           else PyStr (json_dumps env false data) in
    poll_translations env self
    = (Raise (RuntimeError (MSG_SERVICE_ERROR ++ format_value env details)),
       with_ws self (Some (with_pending ws later)),
       repeat recv_call (S (length earlier)))
    /\ (forall s, message = PyStr s -> s <> [] ->
                  format_value env details = s).
Proof.
  intros env self ws earlier texts payload data later
         Hws Hpend Hcoll Hload Hdict Htype message nested details.
  destruct data as [| | | | | |d]; try discriminate Hdict.
  assert (Hty : assoc d (lit "type") = Some (PyStr (lit "error"))).
  { unfold field in Htype. cbn [py_get] in Htype.
    destruct (assoc d (lit "type")); [rewrite Htype; reflexivity | discriminate]. }
  split.
  - unfold poll_translations. rewrite Hws, Hpend.
    rewrite (drain_collected env earlier (Frame payload :: later) [] Hcoll).
    cbn [drain]. rewrite Hload, (dispatch_error env d texts Hty).
    rewrite (error_details_rule env d). cbn [rbind].
    fold message nested details.
    replace (repeat recv_call (S (length earlier)))
      with (repeat recv_call (length earlier) ++ [recv_call]);
      [reflexivity|].
    change [recv_call] with (repeat recv_call 1).
    rewrite <- repeat_app. f_equal. lia.
  - intros s Hm Hs. unfold details. rewrite Hm. cbn [py_truthy].
    apply truthy_true in Hs. rewrite Hs. reflexivity.
Qed.

Lemma poll_translations_error_event_witness :
  poll_translations Demo.env (Demo.client (Some Demo.quota_socket))
  = (Raise (RuntimeError (MSG_SERVICE_ERROR ++ lit "quota exceeded")),
     Demo.client (Some (with_pending Demo.quota_socket [Frame (lit "delta")])),
     [recv_call; recv_call]).
Proof.
  apply (proj1 (@poll_translations_error_event
                  Demo.env (Demo.client (Some Demo.quota_socket))
                  Demo.quota_socket [lit "delta"]
                  [PyStr (lit "hello")] (lit "quota") Demo.quota_event
                  [Frame (lit "delta")]
                  eq_refl eq_refl eq_refl eq_refl eq_refl eq_refl)).
Defined.

(** Without the error event the same socket hands over the text. *)
Example poll_translations_collects :
  fst (fst (poll_translations Demo.env
              (Demo.client
                 (Some (with_pending Demo.quota_socket
                          [Frame (lit "delta"); RecvTimeout;
                           Frame (lit "quota")])))))
  = Ok [PyStr (lit "hello")].
Proof. reflexivity. Qed.

End DashScopeProps.

(* ====================================================================== *)
(** ** MockTranslatorBackend *)
(* ====================================================================== *)

Module MockProps.
Import MockTranslatorBackend.

(** C8. For a non-zero sample rate: [poll_translations] returns the empty
    list when the byte counter is zero, and otherwise exactly one status
    string made from [counter / (samplerate * 2)] and the counter reset
    to zero; a poll that returned text is followed by a poll that returns
    none; [start], [flush] and [stop] reset the counter; [send_audio] adds
    the length of the chunk. *)
Theorem mock_backend_counter :
  forall (env : Env) (self : t),
    _samplerate self <> 0%Z ->
    (_buffer self = 0%Z -> poll_translations env self = (Ok [], self)) /\
    (_buffer self <> 0%Z ->
     poll_translations env self
     = (Ok [PyStr (MOCK_PREFIX
                   ++ format_1f env (_buffer self) (_samplerate self * 2)
                   ++ MOCK_SUFFIX)],
        with_buffer self 0)) /\
    (let (r1, self1) := poll_translations env self in
     let (r2, _) := poll_translations env self1 in
     r1 = Ok [] \/ r2 = Ok []) /\
    start self = (Ok tt, with_buffer self 0) /\
    flush self = (Ok tt, with_buffer self 0) /\
    stop self = (Ok tt, with_buffer self 0) /\
    (forall chunk,
        send_audio chunk self
        = (Ok tt, with_buffer self (_buffer self + Z.of_nat (length chunk)))).
Proof.
  intros env self Hsr.
  assert (Hz : (_samplerate self * 2 =? 0)%Z = false)
    by (apply Z.eqb_neq; lia).
  split; [| split; [| split]].
  - intros Hb. unfold poll_translations. rewrite Hb. reflexivity.
  - intros Hb. unfold poll_translations.
    apply Z.eqb_neq in Hb. rewrite Hb, Hz. reflexivity.
  - unfold poll_translations.
    destruct (_buffer self =? 0)%Z eqn:Eb.
    + cbv beta iota. rewrite Eb. left. reflexivity.
    + rewrite Hz. cbn [with_buffer _buffer Z.eqb]. right. reflexivity.
  - repeat split.
Qed.

Lemma mock_backend_counter_witness :
  _samplerate (mk 32000 16000) <> 0%Z /\
  poll_translations Demo.env (mk 32000 16000)
  = (Ok [PyStr (MOCK_PREFIX ++ lit "1.0" ++ MOCK_SUFFIX)], mk 0 16000).
Proof.
  assert (H : _samplerate (mk 32000 16000) <> 0%Z) by (simpl; lia).
  split; [exact H|].
  destruct (mock_backend_counter Demo.env (mk 32000 16000) H) as (_ & R & _).
  rewrite R; [reflexivity | simpl; lia].
Defined.

(** Whatever the sample rate, two polls in a row never both return text. *)
Lemma poll_twice (env : Env) (self : t) :
  let (r1, self1) := poll_translations env self in
  let (r2, _) := poll_translations env self1 in
  (exists texts, r1 = Ok texts /\ texts <> []) -> r2 = Ok [].
Proof.
  unfold poll_translations.
  destruct (_buffer self =? 0)%Z eqn:Eb.
  - cbv beta iota. rewrite Eb.
    intros (texts & H & Hne). injection H as <-. contradiction.
  - destruct (_samplerate self * 2 =? 0)%Z eqn:Ez.
    + cbv beta iota. rewrite Eb, Ez. intros (texts & H & _). discriminate.
    + cbn [with_buffer _buffer Z.eqb]. intros _. reflexivity.
Qed.

End MockProps.

(* ====================================================================== *)
(** ** TranslationWorker.run *)
(* ====================================================================== *)

Module WorkerProps.
Import TranslationWorker WorkerVocabulary.

Lemma emit_captions_events (captions : list pyval) :
  forall last,
    Forall (fun ev => is_loop_event ev = true)
           (snd (emit_captions captions last)).
Proof.
  induction captions as [|c rest IH]; intros last; cbn [emit_captions].
  - constructor.
  - destruct (normalize_caption c) as [normalized|e]; [|constructor].
    destruct (negb (truthy normalized) || str_eqb normalized last).
    + apply IH.
    + specialize (IH normalized).
      destruct (emit_captions rest normalized) as [[r last'] evs].
      cbn [snd] in *. constructor; [reflexivity | exact IH].
Qed.

Section Generic.
Context {B : Type} {ops : TranslationBackend B}.

Lemma loop_events (audio : list audio_item) :
  forall (backend : B) (last : str),
    Forall (fun ev => is_loop_event ev = true)
           (snd (loop audio backend last)).
Proof.
  induction audio as [|item rest IH]; intros backend last; cbn [loop].
  - constructor.
  - destruct item as [chunk stop_is_set|e]; [|constructor].
    destruct stop_is_set; [constructor|].
    destruct (backend_send_audio chunk backend) as [r1 b1].
    destruct r1 as [[]|e]; [|repeat constructor].
    destruct (backend_poll_translations b1) as [r2 b2].
    destruct r2 as [captions|e]; [|repeat constructor].
    pose proof (emit_captions_events captions last) as Hc.
    destruct (emit_captions captions last) as [[r3 last3] evs].
    cbn [snd] in Hc.
    destruct r3 as [[]|e].
    + specialize (IH b2 last3).
      destruct (loop rest b2 last3) as [[[r b'] last'] evs'].
      cbn [snd] in *. repeat constructor. apply Forall_app. split; assumption.
    + cbn [snd]. repeat constructor. exact Hc.
Qed.

(** The shape of the trace of [run]. *)
Lemma run_trace_shape :
  forall (create : result B) (self : t B) (audio : list audio_item),
    let '(self', _, evs) := run create self audio in
    let '(r, _, body) := run_try create audio in
    (_backend self' = None /\ _last_caption self' = []) /\
    exists mid tail,
      Forall (fun ev => is_loop_event ev = true) mid /\
      (body = [] \/ body = start_call :: mid ++ tail) /\
      (tail = [] \/ tail = [flush_call] \/ tail = [flush_call; stop_call]) /\
      (r = Ok tt ->
       evs = start_call :: mid ++ [flush_call; stop_call]) /\
      (forall e, r = Raise e ->
                 evs = body ++ [error_occurred e] /\
                 count is_error_occurred evs = 1).
Proof.
  intros create self audio. unfold run.
  assert (Hcount : forall mid tail e,
             Forall (fun ev => is_loop_event ev = true) mid ->
             tail = [] \/ tail = [flush_call] \/ tail = [flush_call; stop_call] ->
             count is_error_occurred
                   ((start_call :: mid ++ tail) ++ [error_occurred e]) = 1).
  { intros mid tail e Hmid Htail. unfold count.
    cbn [app filter is_error_occurred]. rewrite !filter_app.
    assert (Hm : filter is_error_occurred mid = []).
    { clear -Hmid. induction Hmid as [|ev l Hev _ IH]; [reflexivity|].
      cbn [filter]. destruct ev; try discriminate Hev; exact IH. }
    rewrite Hm. destruct Htail as [->|[->| ->]]; reflexivity. }
  unfold run_try.
  destruct create as [backend|e0].
  2:{ split; [split; reflexivity|]. exists [], [].
      split; [constructor|]. split; [left; reflexivity|].
      split; [left; reflexivity|]. split; [discriminate|].
      intros e He. injection He as <-. split; reflexivity. }
  destruct (backend_start backend) as [r0 b0].
  destruct r0 as [[]|e0].
  2:{ split; [split; reflexivity|]. exists [], [].
      split; [constructor|]. split; [right; reflexivity|].
      split; [left; reflexivity|]. split; [discriminate|].
      intros e He. injection He as <-. split; reflexivity. }
  pose proof (loop_events audio b0 []) as Hloop.
  destruct (loop audio b0 []) as [[[r1 b1] last1] evs]. cbn [snd] in Hloop.
  destruct r1 as [[]|e1].
  2:{ split; [split; reflexivity|]. exists evs, [].
      split; [exact Hloop|]. split; [right; rewrite app_nil_r; reflexivity|].
      split; [left; reflexivity|]. split; [discriminate|].
      intros e He. injection He as <-.
      split; [reflexivity|].
      rewrite <- (app_nil_r evs) at 1. apply Hcount; auto. }
  destruct (backend_flush b1) as [r2 b2].
  destruct r2 as [[]|e2].
  2:{ split; [split; reflexivity|]. exists evs, [flush_call].
      split; [exact Hloop|]. split; [right; reflexivity|].
      split; [right; left; reflexivity|]. split; [discriminate|].
      intros e He. injection He as <-.
      split; [reflexivity|]. apply Hcount; auto. }
  destruct (backend_stop b2) as [r3 b3].
  split; [split; reflexivity|]. exists evs, [flush_call; stop_call].
  split; [exact Hloop|]. split; [right; reflexivity|].
  split; [right; right; reflexivity|].
  destruct r3 as [[]|e3].
  - split; [reflexivity | discriminate].
  - split; [discriminate|].
    intros e He. injection He as <-.
      split; [reflexivity|]. apply Hcount; auto.
Qed.


Lemma no_cleanup_in_loop (mid : list event) :
  Forall (fun ev => is_loop_event ev = true) mid ->
  filter is_cleanup_call mid = [].
Proof.
  induction 1 as [|ev l Hev _ IH]; [reflexivity|].
  cbn [filter]. destruct ev; try discriminate Hev; exact IH.
Qed.

Lemma run_loop_exception (create : result B) (self : t B)
  (audio : list audio_item) (backend b0 : B) (e : exn) :
  create = Ok backend ->
  backend_start backend = (Ok tt, b0) ->
  fst (fst (fst (loop audio b0 []))) = Raise e ->
  snd (run create self audio)
  = start_call :: snd (loop audio b0 []) ++ [error_occurred e]
  /\ count is_cleanup_call (snd (run create self audio)) = 0.
Proof.
  intros Hc Hs Hl. unfold run, run_try. rewrite Hc, Hs.
  pose proof (loop_events audio b0 []) as Hloop.
  destruct (loop audio b0 []) as [[[r1 b1] last1] evs].
  cbn [fst snd] in *. subst r1. cbn [snd]. split; [reflexivity|].
  unfold count. cbn [app filter is_cleanup_call].
  rewrite filter_app, (no_cleanup_in_loop Hloop). reflexivity.
Qed.

(** C4, as the code has it. Whatever happens, [run] ends with [_backend]
    and [_last_caption] reset. The events before any error report are:
    nothing (the backend could not be created), or [start()], the events
    of the loop, and then nothing more, [flush()], or [flush()] and
    [stop()]. When no exception is raised in the [try] block, [flush()]
    and then [stop()] were called last and no error is reported. When an
    exception is raised, one [error_occurred] is emitted as the last
    event and nothing is called on the backend after it; when it is
    raised inside the loop, neither [flush()] nor [stop()] is called. *)
Theorem run_exit_paths :
  forall (create : result B) (self : t B) (audio : list audio_item),
    (let '(self', _, evs) := run create self audio in
     let '(r, _, body) := run_try create audio in
     (_backend self' = None /\ _last_caption self' = []) /\
     exists mid tail,
       Forall (fun ev => is_loop_event ev = true) mid /\
       (body = [] \/ body = start_call :: mid ++ tail) /\
       (tail = [] \/ tail = [flush_call] \/ tail = [flush_call; stop_call]) /\
       (r = Ok tt ->
        evs = start_call :: mid ++ [flush_call; stop_call]) /\
       (forall e, r = Raise e ->
                  evs = body ++ [error_occurred e] /\
                  count is_error_occurred evs = 1)) /\
    (forall backend b0 e,
        create = Ok backend ->
        backend_start backend = (Ok tt, b0) ->
        fst (fst (fst (loop audio b0 []))) = Raise e ->
        snd (run create self audio)
        = start_call :: snd (loop audio b0 []) ++ [error_occurred e]
        /\ count is_cleanup_call (snd (run create self audio)) = 0).
Proof.
  intros create self audio. split.
  - apply run_trace_shape.
  - intros backend b0 e Hc Hs Hl.
    eapply run_loop_exception; eassumption.
Qed.

End Generic.

(** C4 fails as stated: when the service sends an error event, the loop
    ends with the error report; [flush()] and [stop()] are not called and
    the backend is let go with its socket still open. *)
Lemma run_error_skips_cleanup :
  let '(_, left_behind, evs) :=
    @run AnyBackend (any_backend Demo.env)
         (_create_backend Demo.env Demo.cfg 16000)
         fresh_worker failing_audio in
  evs = [start_call; send_audio_call [Byte.x01; Byte.x02];
         poll_translations_call;
         error_occurred
           (RuntimeError (MSG_SERVICE_ERROR ++ lit "quota exceeded"))]
  /\ count is_cleanup_call evs = 0
  /\ exists d ws, left_behind = Some (Live d)
                  /\ DashScopeRealtimeBackend._ws d = Some ws.
Proof.
  vm_compute. split; [reflexivity|]. split; [reflexivity|].
  eexists. eexists. split; reflexivity.
Qed.

(** A session on the mock backend that is stopped after two chunks. *)
Example run_mock_session :
  snd (@run AnyBackend (any_backend Demo.env)
            (_create_backend Demo.env
               (mkDashScopeConfig [] (lit "m") (lit "zh")) 1)
            fresh_worker
            [Chunk [Byte.x01; Byte.x02] false;
             Chunk [Byte.x03; Byte.x04] false;
             Chunk [] true])
  = [start_call;
     send_audio_call [Byte.x01; Byte.x02]; poll_translations_call;
     subtitle_ready (MOCK_PREFIX ++ lit "1.0" ++ MOCK_SUFFIX);
     send_audio_call [Byte.x03; Byte.x04]; poll_translations_call;
     flush_call; stop_call].
Proof. vm_compute. reflexivity. Qed.

End WorkerProps.

(* ====================================================================== *)
(** ** SystemAudioCapture._float_to_pcm16 *)
(* ====================================================================== *)

Module AudioProps.
Import SystemAudioCapture.

Lemma float_of_not_nan (fmt : float_format) (m : Z) :
  (m = 1 \/ m = -1)%Z -> is_nan (float_of fmt m 0) = false.
Proof. intros [-> | ->]; destruct fmt; reflexivity. Qed.

Lemma clip_below (fmt : float_format) (x : spec_float) :
  SFltb x (float_of fmt (-1) 0) = true -> clip fmt x = float_of fmt (-1) 0.
Proof.
  intros H. unfold clip, maximum.
  assert (Hx : is_nan x = false) by (destruct x; [reflexivity.. | discriminate H | reflexivity]).
  rewrite Hx, (float_of_not_nan fmt (or_intror eq_refl)), H.
  destruct fmt; reflexivity.
Qed.

Lemma clip_above (fmt : float_format) (x : spec_float) :
  SFltb x (float_of fmt (-1) 0) = false ->
  SFltb (float_of fmt 1 0) x = true -> clip fmt x = float_of fmt 1 0.
Proof.
  intros Hlo Hhi. unfold clip, maximum, minimum.
  assert (Hx : is_nan x = false)
    by (destruct x; [reflexivity.. | destruct fmt; discriminate Hhi | reflexivity]).
  rewrite Hx, (float_of_not_nan fmt (or_intror eq_refl)), Hlo, Hx.
  rewrite (float_of_not_nan fmt (or_introl eq_refl)), Hhi. reflexivity.
Qed.

Lemma clip_inside (fmt : float_format) (x : spec_float) :
  SFltb x (float_of fmt (-1) 0) = false ->
  SFltb (float_of fmt 1 0) x = false -> clip fmt x = x.
Proof.
  intros Hlo Hhi. unfold clip, maximum, minimum.
  destruct (is_nan x) eqn:Hx; [rewrite Hx; reflexivity|].
  rewrite (float_of_not_nan fmt (or_intror eq_refl)), Hlo, Hx.
  rewrite (float_of_not_nan fmt (or_introl eq_refl)), Hhi. reflexivity.
Qed.

(** C6. The conversion is a function of the sample alone. A sample below
    -1 gives -32767, a sample above 1 gives 32767, and any other sample
    [x] is left as it is by the clip and gives the integer part of
    [x * 32767]. The array [[1.5, -2.0, 0.0]] becomes the samples
    [[32767, -32767, 0]], in either float format, and the bytes returned
    are those samples. *)
Theorem float_to_pcm16_clip_scale :
  forall (fmt : float_format) (invalid : Z),
    let lo := float_of fmt (-1) 0 in
    let hi := float_of fmt 1 0 in
    (forall x, SFltb x lo = true -> pcm16_sample fmt invalid x = (-32767)%Z) /\
    (forall x, SFltb x lo = false -> SFltb hi x = true ->
               pcm16_sample fmt invalid x = 32767%Z) /\
    (forall x, SFltb x lo = false -> SFltb hi x = false ->
               clip fmt x = x /\
               pcm16_sample fmt invalid x
               = astype_int16 invalid
                   (SFmul (prec fmt) (emax fmt) x (float_of fmt INT16_MAX 0))) /\
    (let data := [float_of fmt 3 (-1); float_of fmt (-2) 0; S754_zero false] in
     map (clip fmt) data = [hi; lo; S754_zero false] /\
     pcm16_samples fmt invalid data = [32767; -32767; 0]%Z /\
     int16_of_bytes (_float_to_pcm16 fmt invalid data)
     = [32767; -32767; 0]%Z) /\
    (forall data,
        _float_to_pcm16 fmt invalid data
        = flat_map (fun x => int16_bytes (pcm16_sample fmt invalid x)) data).
Proof.
  intros fmt invalid lo hi. split; [| split; [| split; [| split]]].
  - intros x H. unfold pcm16_sample. rewrite (clip_below fmt x H).
    destruct fmt; reflexivity.
  - intros x Hlo Hhi. unfold pcm16_sample. rewrite (clip_above fmt x Hlo Hhi).
    destruct fmt; reflexivity.
  - intros x Hlo Hhi. unfold pcm16_sample. rewrite (clip_inside fmt x Hlo Hhi).
    split; reflexivity.
  - destruct fmt; repeat split; reflexivity.
  - intros data. unfold _float_to_pcm16, pcm16_samples.
    induction data as [|x data IH]; [reflexivity|].
    cbn [map flat_map]. rewrite IH. reflexivity.
Qed.

Example pcm16_bytes_example :
  _float_to_pcm16 float32 0
    [float_of float32 3 (-1); float_of float32 (-2) 0; S754_zero false]
  = [Byte.xff; Byte.x7f; Byte.x01; Byte.x80; Byte.x00; Byte.x00].
Proof. reflexivity. Qed.

Example pcm16_half_scale_example :
  pcm16_samples float64 0 [float_of float64 1 (-1); float_of float64 (-1) (-2)]
  = [16383; -8191]%Z.
Proof. reflexivity. Qed.

End AudioProps.

(* ====================================================================== *)
(** ** More on the reconciler *)
(* ====================================================================== *)

Module ReconcilerProps.

(** *** Stripping *)

Lemma lstrip_head (s : str) :
  lstrip s = [] \/ exists c s', lstrip s = c :: s' /\ is_space c = false.
Proof.
  induction s as [|c s IH]; [left; reflexivity|].
  cbn [lstrip]. destruct (is_space c) eqn:E; [exact IH|].
  right. exists c, s. split; [reflexivity | exact E].
Qed.

Lemma lstrip_fixed (c : char) (s : str) :
  is_space c = false -> lstrip (c :: s) = c :: s.
Proof. intros H. cbn [lstrip]. rewrite H. reflexivity. Qed.

Lemma lstrip_idempotent (s : str) : lstrip (lstrip s) = lstrip s.
Proof.
  destruct (lstrip_head s) as [-> | (c & s' & -> & Hc)];
    [reflexivity | apply lstrip_fixed; exact Hc].
Qed.

Lemma lstrip_snoc (a : str) (c : char) :
  is_space c = false -> exists w, lstrip (a ++ [c]) = w ++ [c].
Proof.
  intros Hc. induction a as [|x a IH].
  - exists []. cbn. rewrite Hc. reflexivity.
  - cbn [app lstrip]. destruct (is_space x); [exact IH|].
    exists (x :: a). reflexivity.
Qed.

Lemma rstrip_keeps_head (c : char) (s : str) :
  is_space c = false -> exists w, rstrip (c :: s) = c :: w.
Proof.
  intros Hc. unfold rstrip. cbn [rev].
  destruct (@lstrip_snoc (rev s) c Hc) as [w Hw]. rewrite Hw.
  exists (rev w). rewrite rev_app_distr. reflexivity.
Qed.

Lemma strip_no_leading_space (s : str) : lstrip (strip s) = strip s.
Proof.
  unfold strip.
  destruct (lstrip_head s) as [-> | (c & s' & -> & Hc)]; [reflexivity|].
  destruct (@rstrip_keeps_head c s' Hc) as [w ->]. apply lstrip_fixed. exact Hc.
Qed.

Lemma rstrip_idempotent (s : str) : rstrip (rstrip s) = rstrip s.
Proof.
  unfold rstrip. rewrite rev_involutive, lstrip_idempotent. reflexivity.
Qed.

Lemma strip_idempotent (s : str) : strip (strip s) = strip s.
Proof.
  unfold strip at 1. rewrite strip_no_leading_space.
  unfold strip. apply rstrip_idempotent.
Qed.

(** *** The transcript after a call *)

Lemma prefix_suffix_equal (a b : str) :
  is_prefix a b -> is_suffix b a -> a = b.
Proof.
  intros [t Ht] [u Hu].
  assert (Hl : length t = 0 /\ length u = 0).
  { assert (H1 := f_equal (@length _) Ht).
    assert (H2 := f_equal (@length _) Hu).
    rewrite length_app in H1, H2. lia. }
  destruct Hl as [Hl _]. destruct t; [|discriminate Hl].
  rewrite app_nil_r in Ht. symmetry. exact Ht.
Qed.

Lemma overlap_split (P F : str) (k : nat) :
  overlaps P F k ->
  P ++ skipn k F = firstn (length P - k) P ++ F.
Proof.
  intros [Hk [t Ht]].
  assert (Hlen : length (skipn (length P - k) P) = k)
    by (rewrite length_skipn; lia).
  assert (Hskip : skipn k F = t).
  { rewrite Ht. rewrite <- Hlen at 1.
    rewrite skipn_app, skipn_all, Nat.sub_diag. reflexivity. }
  rewrite Hskip, Ht, app_assoc, firstn_skipn. reflexivity.
Qed.

(** How one call changes the transcript and what it shows, by cases. *)
Lemma reconcile_cases (self : ApplicationController) (text : str) :
  let P := _transcript_text self in
  let F := strip text in
  F <> [] ->
  exists inc,
    _transcript_text (fst (add_history_entry self text)) = P ++ inc /\
    increment (snd (add_history_entry self text)) = inc /\
    is_suffix F (P ++ inc) /\
    exists separator rest,
      inc = separator ++ rest /\
      (separator = [] \/ separator = [LF]) /\
      is_suffix rest F.
Proof.
  intros P F HF.
  assert (Hinc : forall t, increment [append_transcript t] = t)
    by (intros t; unfold increment; simpl; apply app_nil_r).
  destruct P as [|p0 P0] eqn:EP.
  { (* rule 1 *)
    rewrite (reconcile_first self text HF EP). cbn [fst snd].
    exists F. split; [reflexivity|]. split; [apply app_nil_r|].
    split; [exists []; reflexivity|].
    exists [], F. split; [reflexivity|]. split; [left; reflexivity|].
    exists []. reflexivity. }
  rewrite <- EP in *. assert (HP : P <> []) by (rewrite EP; discriminate).
  clear EP p0 P0.
  destruct (str_eqb F P) eqn:EQ.
  { (* rule 2 *)
    apply str_eqb_eq in EQ.
    rewrite (reconcile_repeat self text HF HP EQ). cbn [fst snd].
    exists []. split; [symmetry; apply app_nil_r|]. split; [reflexivity|].
    split; [exists []; rewrite app_nil_r; exact (eq_sym EQ)|].
    exists [], []. split; [reflexivity|]. split; [left; reflexivity|].
    exists F. symmetry. apply app_nil_r. }
  apply str_eqb_neq in EQ.
  destruct (startswith F P) eqn:ES.
  { (* rule 3 *)
    apply startswith_spec in ES.
    rewrite (reconcile_extend self text HF HP EQ ES). cbn [fst snd].
    destruct ES as [t Ht]. fold P F.
    assert (Hskip : skipn (length P) F = t)
      by (rewrite Ht, skipn_app, skipn_all, Nat.sub_diag; reflexivity).
    exists t. rewrite Hinc, Hskip.
    split; [exact Ht|]. split; [reflexivity|].
    split; [exists []; exact (eq_sym Ht)|].
    exists [], t. split; [reflexivity|]. split; [left; reflexivity|].
    exists P. exact Ht. }
  assert (Hpre : ~ is_prefix P F)
    by (intros H; apply startswith_spec in H; congruence).
  destruct (endswith P F) eqn:EE.
  { (* rule 4 *)
    apply endswith_spec in EE.
    rewrite (reconcile_subsumed self text HF HP EQ Hpre EE). cbn [fst snd].
    exists []. split; [symmetry; apply app_nil_r|]. split; [reflexivity|].
    split; [rewrite app_nil_r; exact EE|].
    exists [], []. split; [reflexivity|]. split; [left; reflexivity|].
    exists F. symmetry. apply app_nil_r. }
  assert (Hsuf : ~ is_suffix F P)
    by (intros H; apply endswith_spec in H; congruence).
  destruct (_longest_overlap_spec P F) as [[Hov _] _].
  destruct (Nat.eq_dec (_longest_overlap P F) 0) as [Hk|Hk].
  - (* rule 6 *)
    pose proof (reconcile_unrelated self text HF HP EQ Hpre Hsuf Hk) as R.
    cbn zeta in R. fold P F in R. rewrite R. cbn [fst snd with_transcript _transcript_text].
    rewrite Hinc. eexists. split; [reflexivity|]. split; [reflexivity|].
    split; [eexists; rewrite app_assoc; reflexivity|].
    exists (if endswith P [LF] then [] else [LF]), F.
    split; [reflexivity|].
    split; [destruct (endswith P [LF]); [left | right]; reflexivity|].
    exists []. reflexivity.
  - (* rule 5 *)
    assert (Hpos : 0 < _longest_overlap P F) by lia.
    rewrite (reconcile_overlap self text HF HP EQ Hpre Hsuf Hpos).
    cbn [fst snd with_transcript _transcript_text]. rewrite Hinc. fold P F.
    destruct Hov as [H0|[_ Hov]]; [lia|].
    eexists. split; [reflexivity|]. split; [reflexivity|].
    split; [rewrite (@overlap_split P F _ Hov); eexists; reflexivity|].
    exists [], (skipn (_longest_overlap P F) F).
    split; [reflexivity|]. split; [left; reflexivity|].
    exists (firstn (_longest_overlap P F) F). symmetry. apply firstn_skipn.
Qed.


(** *** Properties *)

(** X1. After a call with a text that is not blank, the transcript ends
    with the stripped text, whichever rule applied. *)
Theorem transcript_ends_with_fragment :
  forall (self : ApplicationController) (text : str),
    strip text <> [] ->
    is_suffix (strip text)
              (_transcript_text (fst (add_history_entry self text))).
Proof.
  intros self text HF.
  destruct (reconcile_cases self text HF) as (inc & HP' & _ & Hsuf & _).
  rewrite HP'. exact Hsuf.
Qed.

Lemma transcript_ends_with_fragment_witness :
  strip (lit " sat on the mat ") <> [] /\
  is_suffix (strip (lit " sat on the mat "))
    (_transcript_text
       (fst (add_history_entry (mkController (lit "the cat sat") true)
                               (lit " sat on the mat ")))).
Proof.
  assert (H : strip (lit " sat on the mat ") <> [])
    by (vm_compute; discriminate).
  split; [exact H|].
  apply (transcript_ends_with_fragment
           (mkController (lit "the cat sat") true) (lit " sat on the mat ") H).
Defined.

(** X2. A call repeated with the same text does nothing the second time:
    the controller stays as the first call left it and the window is not
    called. *)
Theorem add_history_entry_idempotent :
  forall (self : ApplicationController) (text : str),
    let self1 := fst (add_history_entry self text) in
    add_history_entry self1 text = (self1, []).
Proof.
  intros self text self1.
  destruct (strip text) as [|f0 F0] eqn:EF.
  { apply reconcile_blank. exact EF. }
  assert (HF : strip text <> []) by (rewrite EF; discriminate).
  destruct (reconcile_cases self text HF) as (inc & HP' & _ & Hsuf & _).
  fold self1 in HP'. rewrite <- HP' in Hsuf.
  assert (HP1 : _transcript_text self1 <> []).
  { destruct Hsuf as [u Hu]. rewrite Hu, EF.
    destruct u; discriminate. }
  destruct (str_eqb (strip text) (_transcript_text self1)) eqn:EQ.
  - apply str_eqb_eq in EQ. apply reconcile_repeat; assumption.
  - apply str_eqb_neq in EQ. apply reconcile_subsumed; try assumption.
    intros Hpre. apply EQ. symmetry.
    apply prefix_suffix_equal; assumption.
Qed.

(** X4. A call with a text that is not blank extends the transcript by
    exactly the text it hands to the window, and that text is a suffix of
    the stripped fragment, preceded by at most one line feed; so it is
    never longer than the fragment plus one. *)
Theorem increment_from_fragment :
  forall (self : ApplicationController) (text : str),
    strip text <> [] ->
    let inc := increment (snd (add_history_entry self text)) in
    _transcript_text (fst (add_history_entry self text))
    = _transcript_text self ++ inc /\
    (exists separator rest,
        inc = separator ++ rest /\
        (separator = [] \/ separator = [LF]) /\
        is_suffix rest (strip text)) /\
    length inc <= length (strip text) + 1.
Proof.
  intros self text HF inc.
  destruct (reconcile_cases self text HF)
    as (inc' & HP' & Hinc & _ & sep & rest & Hsplit & Hsep & Hrest).
  unfold inc. rewrite Hinc. split; [exact HP'|].
  split; [exists sep, rest; auto|].
  rewrite Hsplit, length_app. destruct Hrest as [u Hu].
  rewrite Hu, length_app. destruct Hsep as [-> | ->]; simpl; lia.
Qed.

Lemma increment_from_fragment_witness :
  strip (lit "Hello there") <> [] /\
  _transcript_text
    (fst (add_history_entry (mkController (lit "done.") true)
                            (lit "Hello there")))
  = lit "done." ++ LF :: lit "Hello there".
Proof.
  assert (H : strip (lit "Hello there") <> []) by (vm_compute; discriminate).
  split; [exact H|].
  destruct (increment_from_fragment (mkController (lit "done.") true)
                                    (lit "Hello there") H) as [R _].
  rewrite R. reflexivity.
Defined.

(** X5. White space around the text makes no difference to a call. *)
Theorem add_history_entry_ignores_padding :
  forall (self : ApplicationController) (text : str),
    add_history_entry self text = add_history_entry self (strip text).
Proof.
  intros self text. unfold add_history_entry. cbn zeta.
  rewrite strip_idempotent. reflexivity.
Qed.

End ReconcilerProps.

(* ====================================================================== *)
(** ** The controller and its window *)
(* ====================================================================== *)

Module WiringProps.
Import Wiring.






Example pane_after_session :
  SubtitleMainWindow._transcript_edit
    (window
       (fold_left step
          [Subtitle (lit "the cat sat"); Subtitle (lit "sat on the mat");
           UserEdit (lit "the cat"); Subtitle (lit "cat sat")]
          (mkApp (mkController [] false)
                 (SubtitleMainWindow.mk [] false true false))))
  = lit "the cat sat".
Proof. reflexivity. Qed.

End WiringProps.

(* ====================================================================== *)
(** ** More on DashScopeRealtimeBackend *)
(* ====================================================================== *)

Module DashScopeMore.
Import DashScopeRealtimeBackend StreamVocabulary.

(** *** Dispatching one event *)

Lemma append_if_shape (text : pyval) (ts : list pyval) :
  append_if text ts = ts \/
  (py_truthy text = true /\ append_if text ts = ts ++ [text]).
Proof.
  unfold append_if. destruct (py_truthy text); [right | left]; auto.
Qed.

Ltac bind_step H :=
  match type of H with
  | context [rbind ?r _] =>
      destruct r eqn:?; cbn [rbind] in H; try discriminate H
  | context [if ?b then _ else _] => destruct b eqn:?
  end.

(** An event that is dispatched without an exception adds at most one
    text, and only a truthy one. *)
Lemma dispatch_shape (env : Env) (data : pyval) (ts ts' : list pyval) :
  dispatch env data ts = Ok ts' ->
  ts' = ts \/ exists text, py_truthy text = true /\ ts' = ts ++ [text].
Proof.
  intros H. unfold dispatch in H.
  repeat bind_step H;
    try discriminate H;
    injection H as <-;
    try (left; reflexivity);
    match goal with
    | |- append_if ?t ?l = _ \/ _ =>
        destruct (append_if_shape t l) as [E|[E1 E2]];
        [left; exact E | right; exists t; split; assumption]
    end.
Qed.

Lemma drain_truthy (env : Env) (incoming : list recv_event) :
  forall ts texts,
    Forall (fun v => py_truthy v = true) ts ->
    fst (fst (drain env incoming ts)) = Ok texts ->
    Forall (fun v => py_truthy v = true) texts.
Proof.
  induction incoming as [|ev rest IH]; intros ts texts Hts H.
  - cbn in H. injection H as <-. exact Hts.
  - destruct ev as [payload| |]; cbn [drain] in H.
    + destruct (json_loads env payload) as [data|]; [|discriminate H].
      destruct (dispatch env data ts) as [ts1|e] eqn:ED; [|discriminate H].
      destruct (drain env rest ts1) as [[r rest'] calls] eqn:EDr.
      cbn [fst] in H. apply (IH ts1 texts).
      * destruct (dispatch_shape env data ts ED) as [->|(t & Ht & ->)];
          [exact Hts|].
        apply Forall_app. split; [exact Hts | constructor; [exact Ht | constructor]].
      * rewrite EDr. exact H.
    + cbn in H. injection H as <-. exact Hts.
    + discriminate H.
Qed.



(** *** Event identifiers *)

Lemma uint_chars_digits (u : Decimal.uint) : Forall is_digit (uint_chars u).
Proof.
  induction u; cbn [uint_chars]; constructor; try assumption;
    unfold is_digit; lia.
Qed.

Lemma uint_chars_inj (u v : Decimal.uint) :
  uint_chars u = uint_chars v -> u = v.
Proof.
  revert v. induction u; intros v H; destruct v; cbn [uint_chars] in H;
    try discriminate H; try reflexivity;
    injection H as H; f_equal; apply IHu; exact H.
Qed.

Lemma dec_inj (n m : N) : dec n = dec m -> n = m.
Proof.
  unfold dec. intros H. apply uint_chars_inj in H.
  apply DecimalN.Unsigned.to_uint_inj. exact H.
Qed.

(** Two strings cut at an underscore agree on what follows it when what
    follows holds no underscore. *)
Lemma split_at_last (a b x y : str) :
  Forall is_digit x -> Forall is_digit y ->
  a ++ 95%N :: x = b ++ 95%N :: y -> x = y.
Proof.
  intros Hx Hy H.
  assert (R : rev x ++ 95%N :: rev a = rev y ++ 95%N :: rev b).
  { assert (E := f_equal (@rev _) H).
    rewrite !rev_app_distr in E. cbn [rev] in E.
    rewrite <- !app_assoc in E. exact E. }
  assert (Hrx : Forall is_digit (rev x)) by (apply Forall_rev; exact Hx).
  assert (Hry : Forall is_digit (rev y)) by (apply Forall_rev; exact Hy).
  assert (G : rev x = rev y).
  { clear H Hx Hy. revert Hrx Hry R.
    generalize (rev x) (rev y) (rev a) (rev b). clear.
    induction l as [|c l IH]; intros l' ra rb Hl Hl' R.
    - destruct l' as [|c' l']; [reflexivity|].
      cbn in R. injection R as Hc _. inversion Hl' as [|? ? Hd _]; subst.
      unfold is_digit in Hd. lia.
    - destruct l' as [|c' l'].
      + cbn in R. injection R as Hc _. inversion Hl as [|? ? Hd _]; subst.
        unfold is_digit in Hd. lia.
      + cbn in R. injection R as Hc R. subst c'.
        inversion Hl; inversion Hl'; subst.
        f_equal. apply (IH l' ra rb); assumption. }
  rewrite <- (rev_involutive x), <- (rev_involutive y), G. reflexivity.
Qed.

(** *** Properties *)




(** X8. When the connection is found closed, or a frame is not JSON, or a
    frame is JSON but not an object, after frames that were dispatched
    without an exception, [poll_translations] raises ([RuntimeError] for
    the closed connection, the decoder's error, [AttributeError] for the
    missing [get]); the texts of the earlier frames are not returned and
    those frames are gone from the socket. *)
Theorem poll_translations_failures :
  forall (env : Env) (self : t) (ws : WebSocket)
         (frames : list str) (texts : list pyval) (later : list recv_event),
    _ws self = Some ws ->
    collected env frames [] = Some texts ->
    let after := with_ws self (Some (with_pending ws later)) in
    let calls := repeat recv_call (S (length frames)) in
    (pending ws = map Frame frames ++ RecvClosed :: later ->
     poll_translations env self
     = (Raise (RuntimeError MSG_CLOSED), after, calls)) /\
    (forall payload,
        pending ws = map Frame frames ++ Frame payload :: later ->
        json_loads env payload = None ->
        poll_translations env self
        = (Raise (JSONDecodeError payload), after, calls)) /\
    (forall payload data,
        pending ws = map Frame frames ++ Frame payload :: later ->
        json_loads env payload = Some data ->
        is_dict data = false ->
        poll_translations env self
        = (Raise (AttributeError data (lit "get")), after, calls)).
Proof.
  intros env self ws frames texts later Hws Hcoll after calls.
  assert (Hrep : repeat recv_call (length frames) ++ [recv_call] = calls).
  { unfold calls. change [recv_call] with (repeat recv_call 1).
    rewrite <- repeat_app. f_equal. lia. }
  split; [| split].
  - intros Hp. unfold poll_translations. rewrite Hws, Hp.
    rewrite (DashScopeProps.drain_collected env frames _ [] Hcoll).
    cbn [drain]. rewrite Hrep. reflexivity.
  - intros payload Hp Hl. unfold poll_translations. rewrite Hws, Hp.
    rewrite (DashScopeProps.drain_collected env frames _ [] Hcoll).
    cbn [drain]. rewrite Hl, Hrep. reflexivity.
  - intros payload data Hp Hl Hd. unfold poll_translations. rewrite Hws, Hp.
    rewrite (DashScopeProps.drain_collected env frames _ [] Hcoll).
    cbn [drain]. rewrite Hl.
    assert (Hdisp : dispatch env data texts
                    = Raise (AttributeError data (lit "get")))
      by (destruct data; try discriminate Hd; reflexivity).
    rewrite Hdisp, Hrep. reflexivity.
Qed.

Lemma poll_translations_failures_witness :
  poll_translations Demo.env
    (Demo.client
       (Some (with_pending Demo.quota_socket
                [Frame (lit "delta"); RecvClosed; Frame (lit "delta")])))
  = (Raise (RuntimeError MSG_CLOSED),
     Demo.client
       (Some (with_pending Demo.quota_socket [Frame (lit "delta")])),
     [recv_call; recv_call]).
Proof.
  apply (proj1 (@poll_translations_failures
                  Demo.env
                  (Demo.client
                     (Some (with_pending Demo.quota_socket
                              [Frame (lit "delta"); RecvClosed;
                               Frame (lit "delta")])))
                  (with_pending Demo.quota_socket
                     [Frame (lit "delta"); RecvClosed; Frame (lit "delta")])
                  [lit "delta"] [PyStr (lit "hello")] [Frame (lit "delta")]
                  eq_refl eq_refl) eq_refl).
Defined.

(** X9. Every text [poll_translations] returns is truthy: it never hands
    on [None], an empty string or any other falsy value. *)
Theorem poll_translations_texts_truthy :
  forall (env : Env) (self : t) (texts : list pyval),
    fst (fst (poll_translations env self)) = Ok texts ->
    Forall (fun v => py_truthy v = true) texts.
Proof.
  intros env self texts H. unfold poll_translations in H.
  destruct (_ws self) as [ws|].
  - destruct (drain env (pending ws) []) as [[r rest] calls] eqn:E.
    cbn [fst] in H. apply (drain_truthy env (pending ws) (ts := [])).
    + constructor.
    + rewrite E. exact H.
  - cbn in H. injection H as <-. constructor.
Qed.

Lemma poll_translations_texts_truthy_witness :
  Forall (fun v => py_truthy v = true) [PyStr (lit "hello")].
Proof.
  apply (@poll_translations_texts_truthy
           Demo.env
           (Demo.client
              (Some (with_pending Demo.quota_socket [Frame (lit "delta")])))
           [PyStr (lit "hello")] eq_refl).
Defined.



(** X11. The identifier made by [_next_event_id] determines the counter:
    identifiers made at different counter values differ, whatever the
    clock reads (even if it stands still or jumps back). *)
Theorem event_ids_distinct :
  forall (env : Env) (a b : t),
    _event_counter a <> _event_counter b ->
    fst (_next_event_id env a) <> fst (_next_event_id env b).
Proof.
  intros env a b Hne Heq. apply Hne.
  unfold _next_event_id in Heq. cbn [fst with_counter _event_counter] in Heq.
  assert (H : dec (_event_counter a + 1) = dec (_event_counter b + 1)).
  { apply (@split_at_last
             (lit "event_" ++ dec (clock_ms env (_event_counter a + 1)))
             (lit "event_" ++ dec (clock_ms env (_event_counter b + 1))));
      [apply uint_chars_digits | apply uint_chars_digits |].
    rewrite <- !app_assoc. exact Heq. }
  apply dec_inj in H. lia.
Qed.

Lemma event_ids_distinct_witness :
  fst (_next_event_id Demo.env (Demo.client None))
  <> fst (_next_event_id Demo.env (with_counter (Demo.client None) 11)).
Proof.
  apply (@event_ids_distinct Demo.env (Demo.client None)
           (with_counter (Demo.client None) 11)).
  cbn. lia.
Defined.

End DashScopeMore.

(* ====================================================================== *)
(** ** More on the mock backend and the worker *)
(* ====================================================================== *)

Module SessionProps.
Import TranslationWorker WorkerVocabulary StreamVocabulary.

(** *** The mock backend over a run of chunks *)

Lemma mock_send_all_buffer (chunks : list bytes) :
  forall self,
    mock_send_all chunks self
    = MockTranslatorBackend.with_buffer
        self (MockTranslatorBackend._buffer self + total_length chunks).
Proof.
  induction chunks as [|c rest IH]; intros self.
  - cbn. rewrite Z.add_0_r. destruct self; reflexivity.
  - cbn [mock_send_all total_length fold_right]. rewrite IH.
    unfold MockTranslatorBackend.send_audio, MockTranslatorBackend.with_buffer.
    cbn. f_equal. fold (total_length rest). lia.
Qed.

(** X12. After [start()], the byte counter of the mock backend is the
    total length of the chunks sent since, however they were cut; the
    next [poll_translations] reports that total over twice the sample
    rate, or returns nothing when no byte was sent. *)
Theorem mock_backend_accumulates :
  forall (env : Env) (self : MockTranslatorBackend.t) (chunks : list bytes),
    MockTranslatorBackend._samplerate self <> 0%Z ->
    let started := snd (MockTranslatorBackend.start self) in
    let fed := mock_send_all chunks started in
    MockTranslatorBackend._buffer fed = total_length chunks /\
    MockTranslatorBackend.poll_translations env fed
    = (if (total_length chunks =? 0)%Z then (Ok [], fed)
       else (Ok [PyStr (MOCK_PREFIX
                        ++ format_1f env (total_length chunks)
                             (MockTranslatorBackend._samplerate self * 2)
                        ++ MOCK_SUFFIX)],
             MockTranslatorBackend.with_buffer self 0)).
Proof.
  intros env self chunks Hsr started fed.
  assert (Hfed : fed = MockTranslatorBackend.with_buffer
                         self (total_length chunks)).
  { unfold fed, started. rewrite mock_send_all_buffer. reflexivity. }
  rewrite Hfed. split; [reflexivity|].
  unfold MockTranslatorBackend.poll_translations.
  cbn [MockTranslatorBackend.with_buffer MockTranslatorBackend._buffer
       MockTranslatorBackend._samplerate].
  destruct (total_length chunks =? 0)%Z; [reflexivity|].
  assert (Hz : (MockTranslatorBackend._samplerate self * 2 =? 0)%Z = false)
    by (apply Z.eqb_neq; lia).
  rewrite Hz. reflexivity.
Qed.

Lemma mock_backend_accumulates_witness :
  MockTranslatorBackend._buffer
    (mock_send_all [[Byte.x01; Byte.x02]; []; [Byte.x03]]
       (snd (MockTranslatorBackend.start (MockTranslatorBackend.mk 7 16000))))
  = 3%Z.
Proof.
  apply (proj1 (@mock_backend_accumulates
                  Demo.env (MockTranslatorBackend.mk 7 16000)
                  [[Byte.x01; Byte.x02]; []; [Byte.x03]]
                  ltac:(cbn; lia))).
Defined.

(** *** Captions *)

Lemma captions_of_app (a b : list event) :
  captions_of (a ++ b) = captions_of a ++ captions_of b.
Proof.
  induction a as [|ev a IH]; [reflexivity|].
  destruct ev; cbn [app captions_of]; rewrite IH; reflexivity.
Qed.

Lemma last_default (l : list str) :
  forall x d1 d2, last (x :: l) d1 = last (x :: l) d2.
Proof.
  induction l as [|y l IH]; intros x d1 d2; [reflexivity|].
  change (last (x :: y :: l) d1) with (last (y :: l) d1).
  change (last (x :: y :: l) d2) with (last (y :: l) d2). apply IH.
Qed.

Lemma last_app_cons (a : list str) :
  forall s l d, last (a ++ s :: l) d = last (s :: l) d.
Proof.
  induction a as [|x a IH]; intros s l d; [reflexivity|].
  cbn [app]. destruct (a ++ s :: l) as [|y r] eqn:E.
  - destruct a; discriminate E.
  - change (last (x :: y :: r) d) with (last (y :: r) d).
    rewrite <- E. apply IH.
Qed.

Lemma fresh_captions_app (a b : list str) :
  forall previous,
    fresh_captions previous a ->
    fresh_captions (last a previous) b ->
    fresh_captions previous (a ++ b).
Proof.
  induction a as [|c a IH]; intros previous Ha Hb; [exact Hb|].
  cbn [app fresh_captions] in *. destruct Ha as (H1 & H2 & H3 & H4).
  repeat split; try assumption. apply IH; [exact H4|].
  destruct a as [|s a]; [exact Hb|].
  rewrite (last_default a s c previous). exact Hb.
Qed.

Lemma normalize_caption_stripped (caption : pyval) (normalized : str) :
  normalize_caption caption = Ok normalized -> strip normalized = normalized.
Proof.
  unfold normalize_caption.
  destruct (py_or caption (PyStr [])); try discriminate.
  intros H. injection H as <-. apply ReconcilerProps.strip_idempotent.
Qed.

Lemma emit_captions_fresh (captions : list pyval) :
  forall previous,
    let '(_, last', evs) := emit_captions captions previous in
    fresh_captions previous (captions_of evs)
    /\ last' = last (captions_of evs) previous.
Proof.
  induction captions as [|c rest IH]; intros previous; cbn [emit_captions].
  - split; [exact I | reflexivity].
  - destruct (normalize_caption c) as [normalized|e] eqn:EN;
      [|split; [exact I | reflexivity]].
    destruct (negb (truthy normalized) || str_eqb normalized previous) eqn:EB.
    + apply IH.
    + apply orb_false_iff in EB. destruct EB as [Ht Hq].
      apply negb_false_iff, truthy_true in Ht. apply str_eqb_neq in Hq.
      specialize (IH normalized).
      destruct (emit_captions rest normalized) as [[r last'] evs].
      destruct IH as [Hf Hl]. cbn [captions_of fresh_captions].
      split.
      * repeat split; try assumption.
        exact (normalize_caption_stripped c EN).
      * rewrite Hl. destruct (captions_of evs) as [|s l]; [reflexivity|].
        change (last (normalized :: s :: l) previous)
          with (last (s :: l) previous).
        apply last_default.
Qed.

Section AnyBackend.
Context {B : Type} {ops : TranslationBackend B}.

Lemma loop_fresh (audio : list audio_item) :
  forall (backend : B) (previous : str),
    let '(_, _, last', evs) := loop audio backend previous in
    fresh_captions previous (captions_of evs)
    /\ last' = last (captions_of evs) previous.
Proof.
  induction audio as [|item rest IH]; intros backend previous; cbn [loop].
  - split; [exact I | reflexivity].
  - destruct item as [chunk stop_is_set|e]; [|split; [exact I | reflexivity]].
    destruct stop_is_set; [split; [exact I | reflexivity]|].
    destruct (backend_send_audio chunk backend) as [r1 b1].
    destruct r1 as [[]|e]; [|split; [exact I | reflexivity]].
    destruct (backend_poll_translations b1) as [r2 b2].
    destruct r2 as [captions|e]; [|split; [exact I | reflexivity]].
    pose proof (emit_captions_fresh captions previous) as Hc.
    destruct (emit_captions captions previous) as [[r3 last3] evs].
    destruct Hc as [Hf Hl].
    destruct r3 as [[]|e].
    + specialize (IH b2 last3).
      destruct (loop rest b2 last3) as [[[r b'] last'] evs'].
      destruct IH as [Hf' Hl'].
      cbn [captions_of]. rewrite captions_of_app. split.
      * apply fresh_captions_app; [exact Hf|]. rewrite <- Hl. exact Hf'.
      * rewrite Hl', Hl.
        destruct (captions_of evs') as [|s l]; [rewrite app_nil_r; reflexivity|].
        rewrite last_app_cons. apply last_default.
    + cbn [captions_of]. split; assumption.
Qed.

Lemma loop_stops (pre : list audio_item) (chunk : bytes)
  (rest : list audio_item) :
  forall (backend : B) (previous : str),
    loop (pre ++ Chunk chunk true :: rest) backend previous
    = loop pre backend previous.
Proof.
  induction pre as [|item pre IH]; intros backend previous.
  - reflexivity.
  - cbn [app loop]. destruct item as [c stop_is_set|e]; [|reflexivity].
    destruct stop_is_set; [reflexivity|].
    destruct (backend_send_audio c backend) as [r1 b1].
    destruct r1 as [[]|e]; [|reflexivity].
    destruct (backend_poll_translations b1) as [r2 b2].
    destruct r2 as [captions|e]; [|reflexivity].
    destruct (emit_captions captions previous) as [[r3 last3] evs].
    destruct r3 as [[]|e]; [|reflexivity].
    rewrite IH. reflexivity.
Qed.

(** X13. The captions a run of the worker emits are never empty, carry no
    white space at either end, and no caption is emitted twice in a row,
    also across polls; this holds for any backend and also when the run
    ends with an exception. *)
Theorem run_captions_fresh :
  forall (create : result B) (self : t B) (audio : list audio_item),
    fresh_captions [] (captions_of (snd (run create self audio))).
Proof.
  intros create self audio. unfold run, run_try.
  destruct create as [backend|e0]; [|exact I].
  destruct (backend_start backend) as [r0 b0].
  destruct r0 as [[]|e0]; [|exact I].
  pose proof (loop_fresh audio b0 []) as Hl.
  destruct (loop audio b0 []) as [[[r1 b1] last1] evs].
  destruct Hl as [Hf _].
  assert (Htail : forall tail,
             captions_of tail = [] ->
             fresh_captions [] (captions_of (start_call :: evs ++ tail))).
  { intros tail Ht. cbn [captions_of].
    rewrite captions_of_app, Ht, app_nil_r. exact Hf. }
  destruct r1 as [[]|e1].
  2:{ cbn [snd]. change (start_call :: evs) with ([start_call] ++ evs).
      rewrite <- app_assoc. apply (Htail [error_occurred e1]). reflexivity. }
  destruct (backend_flush b1) as [r2 b2].
  destruct r2 as [[]|e2].
  2:{ cbn [snd]. change (start_call :: evs ++ [flush_call])
        with ([start_call] ++ evs ++ [flush_call]).
      rewrite <- !app_assoc.
      apply (Htail ([flush_call] ++ [error_occurred e2])). reflexivity. }
  destruct (backend_stop b2) as [r3 b3].
  destruct r3 as [[]|e3]; cbn [snd].
  - apply (Htail [flush_call; stop_call]). reflexivity.
  - change (start_call :: evs ++ [flush_call; stop_call])
      with ([start_call] ++ evs ++ [flush_call; stop_call]).
    rewrite <- !app_assoc.
    apply (Htail ([flush_call; stop_call] ++ [error_occurred e3])).
    reflexivity.
Qed.

(** X14. Once the stop flag is seen set, the chunk in hand and everything
    the audio source would yield afterwards are neither sent nor polled:
    the run is the one in which the audio ended at that point. *)
Theorem run_stops_at_flag :
  forall (create : result B) (self : t B)
         (pre : list audio_item) (chunk : bytes) (rest : list audio_item),
    run create self (pre ++ Chunk chunk true :: rest)
    = run create self pre.
Proof.
  intros create self pre chunk rest. unfold run, run_try.
  destruct create as [backend|e0]; [|reflexivity].
  destruct (backend_start backend) as [r0 b0].
  destruct r0 as [[]|e0]; [|reflexivity].
  rewrite loop_stops. reflexivity.
Qed.

End AnyBackend.

(** *** A session on the mock backend *)

Lemma emit_captions_strings (texts : list str) :
  forall previous,
    fst (fst (emit_captions (map PyStr texts) previous)) = Ok tt.
Proof.
  induction texts as [|s texts IH]; intros previous; [reflexivity|].
  cbn [map emit_captions].
  assert (Hn : normalize_caption (PyStr s) = Ok (strip s)).
  { unfold normalize_caption, py_or.
    destruct (py_truthy (PyStr s)) eqn:E; [reflexivity|].
    cbn in E. apply truthy_false in E. rewrite E. reflexivity. }
  rewrite Hn. destruct (negb (truthy (strip s)) || str_eqb (strip s) previous).
  - apply IH.
  - specialize (IH (strip s)).
    destruct (emit_captions (map PyStr texts) (strip s)) as [[r l] evs].
    exact IH.
Qed.

Lemma mock_loop_ok (env : Env) (audio : list audio_item) :
  forall (m : MockTranslatorBackend.t) (previous : str),
    MockTranslatorBackend._samplerate m <> 0%Z ->
    forallb capture_ok audio = true ->
    let '(r, b, _, _) :=
      @loop AnyBackend (any_backend env) audio (Null m) previous in
    r = Ok tt /\ exists m', b = Null m'.
Proof.
  induction audio as [|item rest IH]; intros m previous Hsr Hok.
  { cbn. split; [reflexivity | exists m; reflexivity]. }
  cbn [forallb] in Hok. apply andb_true_iff in Hok. destruct Hok as [Hi Hrest].
  destruct item as [chunk stop_is_set|e]; [|discriminate Hi].
  cbn [loop]. destruct stop_is_set;
    [split; [reflexivity | exists m; reflexivity]|].
  cbn [backend_send_audio backend_poll_translations any_backend lift_null
       MockTranslatorBackend.send_audio].
  set (m1 := MockTranslatorBackend.with_buffer m _).
  assert (Hsr1 : MockTranslatorBackend._samplerate m1 <> 0%Z) by exact Hsr.
  assert (Hz : (MockTranslatorBackend._samplerate m1 * 2 =? 0)%Z = false)
    by (apply Z.eqb_neq; lia).
  unfold MockTranslatorBackend.poll_translations. rewrite Hz.
  destruct (MockTranslatorBackend._buffer m1 =? 0)%Z; cbn [lift_null].
  - cbn [emit_captions].
    specialize (IH m1 previous Hsr1 Hrest).
    destruct (loop rest (Null m1) previous) as [[[r b'] last'] evs'].
    exact IH.
  - set (status := MOCK_PREFIX ++ _ ++ MOCK_SUFFIX).
    pose proof (emit_captions_strings [status] previous) as He.
    cbn [map] in He.
    destruct (emit_captions [PyStr status] previous) as [[r3 last3] evs].
    cbn [fst] in He. subst r3.
    specialize (IH (MockTranslatorBackend.with_buffer m1 0) last3 Hsr Hrest).
    destruct (loop rest (Null (MockTranslatorBackend.with_buffer m1 0)) last3)
      as [[[r b'] last'] evs'].
    exact IH.
Qed.

(** X15. Without an API key the worker runs on the mock backend, and then
    a run cannot fail as long as the audio source does not: for a
    non-zero sample rate the trace is [start()], the sends, polls and
    captions of the loop, [flush()], [stop()], and no [error_occurred]
    is emitted. *)
Theorem mock_session_never_fails :
  forall (env : Env) (cfg : DashScopeConfig) (samplerate : Z)
         (self : t AnyBackend) (audio : list audio_item),
    api_key cfg = [] ->
    samplerate <> 0%Z ->
    forallb capture_ok audio = true ->
    let evs := snd (@run AnyBackend (any_backend env)
                         (_create_backend env cfg samplerate) self audio) in
    count is_error_occurred evs = 0 /\
    exists mid,
      Forall (fun ev => is_loop_event ev = true) mid /\
      evs = start_call :: mid ++ [flush_call; stop_call].
Proof.
  intros env cfg samplerate self audio Hkey Hsr Hok evs.
  assert (Hshape : exists mid,
             Forall (fun ev => is_loop_event ev = true) mid /\
             evs = start_call :: mid ++ [flush_call; stop_call]).
  { unfold evs, run, run_try, _create_backend. rewrite Hkey.
    cbn [truthy backend_start any_backend lift_null
         MockTranslatorBackend.start].
    set (m0 := MockTranslatorBackend.with_buffer _ 0).
    pose proof (@mock_loop_ok env audio m0 [] Hsr Hok) as Hl.
    pose proof (@WorkerProps.loop_events AnyBackend (any_backend env)
                  audio (Null m0) []) as He.
    destruct (loop audio (Null m0) []) as [[[r1 b1] last1] mid].
    cbn [snd] in He. destruct Hl as [-> [m1 ->]].
    cbn. exists mid. split; [exact He | reflexivity]. }
  split; [|exact Hshape].
  destruct Hshape as (mid & Hmid & ->).
  unfold count. cbn [filter is_error_occurred]. rewrite filter_app.
  assert (Hm : filter is_error_occurred mid = []).
  { clear -Hmid. induction Hmid as [|ev l Hev _ IH]; [reflexivity|].
    cbn [filter]. destruct ev; try discriminate Hev; exact IH. }
  rewrite Hm. reflexivity.
Qed.

Lemma mock_session_never_fails_witness :
  count is_error_occurred
    (snd (@run AnyBackend (any_backend Demo.env)
               (_create_backend Demo.env
                  (mkDashScopeConfig [] (lit "m") (lit "zh")) 16000)
               fresh_worker
               [Chunk [Byte.x01; Byte.x02] false; Chunk [] true]))
  = 0.
Proof.
  apply (proj1 (@mock_session_never_fails
                  Demo.env (mkDashScopeConfig [] (lit "m") (lit "zh")) 16000
                  fresh_worker
                  [Chunk [Byte.x01; Byte.x02] false; Chunk [] true]
                  eq_refl ltac:(lia) eq_refl)).
Defined.

End SessionProps.

(* ====================================================================== *)
(** ** More on audio capture *)
(* ====================================================================== *)

Module CaptureProps.
Import LoopbackDevice SystemAudioCapture.

(** X16. [_resolve_loopback_microphone] raises exactly when no microphone
    is a loopback device. Otherwise it returns a loopback microphone from
    the list: the first one carrying the default speaker's name when
    there is a speaker and such a microphone, else the first loopback
    microphone. *)
Theorem resolve_loopback_microphone_choice :
  forall (speaker : option Speaker) (mics : list Microphone),
    (filter is_loopback mics = [] <->
     _resolve_loopback_microphone speaker mics
     = Raise (RuntimeError MSG_NO_LOOPBACK)) /\
    (forall mic,
        _resolve_loopback_microphone speaker mics = Ok mic ->
        In mic mics /\ is_loopback mic = true /\
        (forall sp other,
            speaker = Some sp -> In other mics -> is_loopback other = true ->
            name other = speaker_name sp ->
            Some mic
            = find (fun m => str_eqb (name m) (speaker_name sp))
                   (filter is_loopback mics)) /\
        ((speaker = None \/
          forall sp, speaker = Some sp ->
                     forall other, In other mics -> is_loopback other = true ->
                                   name other <> speaker_name sp) ->
         Some mic = hd_error (filter is_loopback mics))).
Proof.
  intros speaker mics. unfold _resolve_loopback_microphone. cbn zeta.
  set (candidates := filter is_loopback mics).
  set (by_name := match speaker with
                  | Some sp =>
                      find (fun m => str_eqb (name m) (speaker_name sp))
                           candidates
                  | None => None
                  end).
  assert (Hcand : forall m, In m candidates ->
                            In m mics /\ is_loopback m = true)
    by (intros m Hm; apply filter_In in Hm; exact Hm).
  assert (Hby : forall m, by_name = Some m -> In m candidates).
  { intros m Hm. unfold by_name in Hm. destruct speaker as [sp|];
      [|discriminate]. apply find_some in Hm. apply Hm. }
  split.
  - split.
    + intros ->. unfold by_name. destruct speaker; reflexivity.
    + destruct by_name as [m|] eqn:E; [discriminate|].
      destruct candidates; [reflexivity | discriminate].
  - intros mic Hmic.
    assert (Hin : In mic candidates).
    { destruct by_name as [m|] eqn:E.
      - injection Hmic as <-. apply Hby. reflexivity.
      - destruct candidates as [|c cs]; [discriminate|].
        injection Hmic as <-. left. reflexivity. }
    destruct (Hcand mic Hin) as [H1 H2].
    split; [exact H1|]. split; [exact H2|]. split.
    + intros sp other -> Hother Hloop Hname.
      unfold by_name in *.
      destruct (find _ candidates) as [m|] eqn:E.
      * injection Hmic as <-. reflexivity.
      * exfalso.
        assert (Hc : In other candidates)
          by (apply filter_In; split; assumption).
        pose proof (find_none _ _ E other Hc) as Hn. cbn beta in Hn.
        rewrite Hname, str_eqb_refl in Hn. discriminate Hn.
    + intros Hnone.
      assert (Hb : by_name = None).
      { destruct speaker as [sp|]; [|reflexivity].
        destruct Hnone as [Hn|Hn]; [discriminate Hn|].
        unfold by_name. destruct (find _ candidates) as [m|] eqn:E;
          [|reflexivity].
        exfalso. apply find_some in E. destruct E as [Hm Heq].
        apply str_eqb_eq in Heq. destruct (Hcand m Hm) as [Hm1 Hm2].
        exact (Hn sp eq_refl m Hm1 Hm2 Heq). }
      rewrite Hb in Hmic.
      destruct candidates as [|c cs]; [discriminate|].
      injection Hmic as <-. reflexivity.
Qed.

Example resolve_prefers_speaker_name :
  _resolve_loopback_microphone
    (Some (mkSpeaker (lit "Speakers")))
    [mkMicrophone (lit "Mic") (Some false);
     mkMicrophone (lit "Headset") (Some true);
     mkMicrophone (lit "Speakers") None;
     mkMicrophone (lit "Speakers") (Some true)]
  = Ok (mkMicrophone (lit "Speakers") (Some true)).
Proof. reflexivity. Qed.

(** *** The bytes of the samples *)

Lemma to_N_byte_of (n : N) : Byte.to_N (byte_of n) = (n mod 256)%N.
Proof.
  unfold byte_of. destruct (Byte.of_N (n mod 256)) as [b|] eqn:E.
  - apply Byte.to_of_N. exact E.
  - apply Byte.of_N_None_iff in E.
    pose proof (N.mod_upper_bound n 256). lia.
Qed.

Lemma int16_bytes_decode (v : Z) (rest : bytes) :
  (-32768 <= v <= 32767)%Z ->
  int16_of_bytes (int16_bytes v ++ rest) = v :: int16_of_bytes rest.
Proof.
  intros Hv. unfold int16_bytes. cbn [app int16_of_bytes].
  rewrite !to_N_byte_of. f_equal.
  set (u := Z.to_N (v mod 65536)).
  assert (Hu : Z.of_N u = (v mod 65536)%Z)
    by (unfold u; rewrite Z2N.id; [reflexivity | apply Z.mod_pos_bound; lia]).
  assert (Hsum : (Z.of_N ((u mod 256) mod 256)
                  + 256 * Z.of_N ((u / 256) mod 256) = v mod 65536)%Z).
  { rewrite <- Hu.
    assert (Hub : (u < 65536)%N).
    { apply N2Z.inj_lt. rewrite Hu. apply Z.mod_pos_bound. lia. }
    clear -Hub. zify. Z.to_euclidean_division_equations. lia. }
  rewrite Hsum.
  destruct (v mod 65536 <? 32768)%Z eqn:E.
  - apply Z.ltb_lt in E. revert E. clear -Hv.
    intros E. Z.to_euclidean_division_equations. lia.
  - apply Z.ltb_ge in E. revert E. clear -Hv.
    intros E. Z.to_euclidean_division_equations. lia.
Qed.

Lemma astype_int16_range (invalid : Z) (x : spec_float) :
  (-32768 <= invalid <= 32767)%Z ->
  (-32768 <= astype_int16 invalid x <= 32767)%Z.
Proof.
  intros Hi. unfold astype_int16. destruct (truncate x) as [v|]; [|exact Hi].
  destruct ((-32768 <=? v) && (v <=? 32767))%Z eqn:E; [|exact Hi].
  apply andb_true_iff in E. destruct E as [E1 E2].
  apply Z.leb_le in E1, E2. lia.
Qed.

(** X17. The bytes returned by [_float_to_pcm16] are two per sample, and
    read back as little-endian [int16] they are the converted samples,
    whatever the input (given that the platform's value for an invalid
    cast is itself an [int16]). *)
Theorem float_to_pcm16_bytes :
  forall (fmt : float_format) (invalid : Z) (data : list spec_float),
    (-32768 <= invalid <= 32767)%Z ->
    length (_float_to_pcm16 fmt invalid data) = 2 * length data /\
    int16_of_bytes (_float_to_pcm16 fmt invalid data)
    = pcm16_samples fmt invalid data /\
    Forall (fun v => (-32768 <= v <= 32767)%Z)
           (pcm16_samples fmt invalid data).
Proof.
  intros fmt invalid data Hi. unfold _float_to_pcm16, pcm16_samples.
  induction data as [|x data (IH1 & IH2 & IH3)].
  - repeat split. constructor.
  - cbn [map flat_map].
    assert (Hr := astype_int16_range
                    (SFmul (prec fmt) (emax fmt) (clip fmt x)
                           (float_of fmt INT16_MAX 0)) Hi).
    fold (pcm16_sample fmt invalid x) in Hr.
    split; [| split].
    + rewrite length_app, IH1. cbn [int16_bytes length]. lia.
    + rewrite (int16_bytes_decode _ Hr), IH2. reflexivity.
    + constructor; assumption.
Qed.

Lemma float_to_pcm16_bytes_witness :
  length (_float_to_pcm16 float32 0
            [float_of float32 3 (-1); S754_nan; S754_infinity true])
  = 6.
Proof.
  apply (proj1 (@float_to_pcm16_bytes
                  float32 0
                  [float_of float32 3 (-1); S754_nan; S754_infinity true]
                  ltac:(lia))).
Defined.

End CaptureProps.

(* ====================================================================== *)
(** ** Display settings *)
(* ====================================================================== *)

Module DisplayProps.
Import Display.






Example opacity_of_nan :
  apply_display_config
    (mkAppConfig Demo.cfg
       (mkDisplayConfig [] 9 [] S754_nan))
  = [setStyleSheet
       (transcript_style 14 (lit "Microsoft YaHei") (lit "#F5F5F5"));
     setWindowOpacity FLOAT_0_1].
Proof. reflexivity. Qed.

Example float_literals :
  SFdiv 53 1024 (binary_normalize 53 1024 1 0 false)
        (binary_normalize 53 1024 10 0 false) = FLOAT_0_1
  /\ binary_normalize 53 1024 1 0 false = FLOAT_1
  /\ binary_normalize 53 1024 100 0 false = FLOAT_100.
Proof. repeat split; reflexivity. Qed.

End DisplayProps.

(* ====================================================================== *)
(** ** The settings dialog *)
(* ====================================================================== *)

Module SettingsProps.
Import Display SettingsDialog.

Lemma str_or_stripped (s fallback : str) :
  strip fallback = fallback -> fallback <> [] ->
  let r := str_or (strip s) fallback in
  strip r = r /\ r <> [] /\ (strip s <> [] -> r = strip s)
  /\ (strip s = [] -> r = fallback).
Proof.
  intros Hf Hne. cbn zeta. unfold str_or.
  destruct (truthy (strip s)) eqn:E.
  - apply truthy_true in E.
    split; [apply ReconcilerProps.strip_idempotent|].
    split; [exact E|]. split; [reflexivity | contradiction].
  - apply truthy_false in E.
    split; [exact Hf|]. split; [exact Hne|].
    split; [contradiction | reflexivity].
Qed.

(** X19. The configuration taken from the settings dialog has its API
    key, model, target language and font colour free of surrounding
    white space; model, target language and font colour are never empty:
    a blank field gives qwen3-livetranslate-flash-realtime, zh and
    #FFFFFF. Applied to the service settings once more, as a dialog
    opened and accepted unchanged does, the same strings come out. *)
Theorem result_config_normalized :
  forall (self : t),
    let ds := dashscope (result_config self) in
    let color := font_color (display (result_config self)) in
    (strip (api_key ds) = api_key ds /\
     strip (model ds) = model ds /\
     strip (target_language ds) = target_language ds /\
     strip color = color) /\
    (model ds <> [] /\ target_language ds <> [] /\ color <> []) /\
    (strip (_model self) = [] ->
     model ds = lit "qwen3-livetranslate-flash-realtime") /\
    (strip (_target_language self) = [] -> target_language ds = lit "zh") /\
    (strip (_font_color self) = [] -> color = lit "#FFFFFF") /\
    (forall again,
        _api_key again = api_key ds -> _model again = model ds ->
        _target_language again = target_language ds ->
        dashscope (result_config again) = ds).
Proof.
  intros self ds color.
  destruct (@str_or_stripped (_model self)
              (lit "qwen3-livetranslate-flash-realtime") eq_refl
              ltac:(discriminate)) as (M1 & M2 & M3 & M4).
  destruct (@str_or_stripped (_target_language self) (lit "zh") eq_refl
              ltac:(discriminate)) as (T1 & T2 & T3 & T4).
  destruct (@str_or_stripped (_font_color self) (lit "#FFFFFF") eq_refl
              ltac:(discriminate)) as (C1 & C2 & C3 & C4).
  assert (HA : strip (api_key ds) = api_key ds)
    by apply ReconcilerProps.strip_idempotent.
  split; [repeat split; assumption|].
  split; [repeat split; assumption|].
  split; [exact M4|]. split; [exact T4|]. split; [exact C4|].
  intros again Ha Hm Ht. unfold result_config. cbn [dashscope].
  rewrite Ha, Hm, Ht, HA. fold ds.
  assert (Hfix : forall s, strip s = s -> s <> [] ->
                           forall fb, str_or (strip s) fb = s).
  { intros s Hs Hn fb. rewrite Hs. unfold str_or.
    apply truthy_true in Hn. rewrite Hn. reflexivity. }
  change (str_or (strip (_model self))
                 (lit "qwen3-livetranslate-flash-realtime"))
    with (model ds) in M1, M2.
  change (str_or (strip (_target_language self)) (lit "zh"))
    with (target_language ds) in T1, T2.
  rewrite (Hfix (model ds) M1 M2), (Hfix (target_language ds) T1 T2).
  destruct ds; reflexivity.
Qed.

Example result_config_blank_fields :
  dashscope
    (result_config (mk (lit " sk-1 ") (lit "   ") [] (lit "Arial") 20
                       (lit " ") 50))
  = mkDashScopeConfig (lit "sk-1")
      (lit "qwen3-livetranslate-flash-realtime") (lit "zh").
Proof. reflexivity. Qed.

Example result_config_opacity :
  background_opacity
    (display (result_config (mk [] [] [] [] 20 [] 10)))
  = FLOAT_0_1.
Proof. reflexivity. Qed.

End SettingsProps.

(* ====================================================================== *)
(** ** TranslationController *)
(* ====================================================================== *)

Module ControllerProps.
Import TranslationController.





End ControllerProps.

(* ====================================================================== *)
(** ** Starting and pausing *)
(* ====================================================================== *)

Module ControlProps.
Import StreamingControl.

Section Hooks.
Context {H : Type}.
Variable hooks : TranslatorHooks H.



End Hooks.


Example start_twice_pause_twice :
  let hooks := mkHooks (fun n : nat => (Ok tt, S n))
                       (fun n : nat => (Ok tt, S n)) in
  handle_all (Some hooks)
             [start_requested; start_requested; pause_requested;
              pause_requested; start_requested]
             (mkController (lit "hello") false) 0
  = (Ok tt, mkController (lit "hello") true, 3,
     [hooks_start_call; set_streaming_state true;
      streaming_state_changed true;
      hooks_stop_call; set_streaming_state false;
      streaming_state_changed false;
      hooks_start_call; set_streaming_state true;
      streaming_state_changed true]).
Proof. reflexivity. Qed.

End ControlProps.

(* ====================================================================== *)
(** ** Further properties *)
(* ====================================================================== *)

Module FurtherProps.
Import DashScopeRealtimeBackend TranslationWorker WorkerVocabulary.

Lemma startswith_refl (s : str) : startswith s s = true.
Proof. apply startswith_spec. exists []. symmetry. apply app_nil_r. Qed.

(** X22. [_longest_overlap] never exceeds the length of either string, is
    0 when either string is empty, is the whole length for a string
    against itself, and is the length of the fragment exactly when the
    transcript ends with the (non-empty) fragment. *)
Theorem longest_overlap_bounds :
  forall (P F : str),
    _longest_overlap P F <= length P /\
    _longest_overlap P F <= length F /\
    _longest_overlap [] F = 0 /\
    _longest_overlap P [] = 0 /\
    _longest_overlap P P = length P /\
    (F <> [] -> (_longest_overlap P F = length F <-> is_suffix F P)).
Proof.
  intros P F.
  destruct (_longest_overlap_spec P F) as [[Hov Hmax] Hle].
  split; [lia|]. split; [lia|].
  split; [reflexivity|].
  split; [unfold _longest_overlap; rewrite Nat.min_0_r; reflexivity|].
  split.
  - unfold _longest_overlap. rewrite Nat.min_id.
    destruct P as [|c P]; [reflexivity|].
    cbn [length overlap_scan last_chars].
    rewrite Nat.sub_diag. cbn [skipn]. rewrite startswith_refl. reflexivity.
  - intros HF. split.
    + intros Hk. destruct Hov as [H0|[_ [HkP [t Ht]]]].
      * rewrite H0 in Hk. destruct F; [contradiction | discriminate Hk].
      * rewrite Hk in Ht, HkP.
        assert (t = []).
        { assert (E := f_equal (@length _) Ht).
          rewrite length_app, length_skipn in E.
          destruct t; [reflexivity | cbn in E; lia]. }
        subst t. rewrite app_nil_r in Ht.
        exists (firstn (length P - length F) P).
        transitivity (firstn (length P - length F) P
                      ++ skipn (length P - length F) P);
          [symmetry; apply firstn_skipn | f_equal; symmetry; exact Ht].
    + intros [u Hu].
      assert (HlP : length F <= length P)
        by (rewrite Hu, length_app; lia).
      assert (Hfull : overlaps P F (length F)).
      { split; [exact HlP|]. exists [].
        rewrite Hu, length_app.
        replace (length u + length F - length F) with (length u) by lia.
        rewrite skipn_app, skipn_all, Nat.sub_diag. cbn.
        rewrite app_nil_r. reflexivity. }
      destruct (Nat.lt_ge_cases (_longest_overlap P F) (length F))
        as [Hlt|Hge]; [|lia].
      exfalso. apply (Hmax (length F) Hlt); [lia | exact Hfull].
Qed.

Lemma longest_overlap_bounds_witness :
  _longest_overlap (lit "hello world") (lit "world") = 5.
Proof.
  destruct (longest_overlap_bounds (lit "hello world") (lit "world"))
    as (_ & _ & _ & _ & _ & R).
  apply (R ltac:(discriminate)). exists (lit "hello "). reflexivity.
Defined.

(** X23. [_create_backend] gives the mock backend, with an empty counter,
    when the API key is empty; with a key it gives the live backend
    without a socket and with the counter at zero, unless the websocket
    library is missing: then the constructor raises and the run of the
    worker consists of one error report, with no call on any backend. *)
Theorem create_backend_choice :
  forall (env : Env) (cfg : DashScopeConfig) (samplerate : Z),
    (api_key cfg = [] ->
     _create_backend env cfg samplerate
     = Ok (Null (MockTranslatorBackend.mk 0 samplerate))) /\
    (api_key cfg <> [] -> websocket_available env = true ->
     _create_backend env cfg samplerate
     = Ok (Live (DashScopeRealtimeBackend.mk cfg samplerate None 0))) /\
    (api_key cfg <> [] -> websocket_available env = false ->
     forall self audio,
       @run AnyBackend (any_backend env)
            (_create_backend env cfg samplerate) self audio
       = ({| _backend := None; _last_caption := [] |}, None,
          [error_occurred (RuntimeError MSG_NO_WEBSOCKET_LIB)])).
Proof.
  intros env cfg samplerate. unfold _create_backend, __init__.
  split; [| split].
  - intros ->. reflexivity.
  - intros Hk Hw. apply truthy_true in Hk. rewrite Hk, Hw. reflexivity.
  - intros Hk Hw self audio. apply truthy_true in Hk. rewrite Hk, Hw.
    reflexivity.
Qed.

Lemma drain_consumes (env : Env) (incoming : list recv_event) :
  forall ts,
    let '(_, rest, calls) := drain env incoming ts in
    Forall (fun c => c = recv_call) calls /\
    exists consumed,
      incoming = consumed ++ rest /\
      (length calls = length consumed \/
       (incoming = consumed /\ length calls = S (length consumed))).
Proof.
  induction incoming as [|ev rest IH]; intros ts.
  - cbn. split; [repeat constructor|]. exists []. split; [reflexivity|].
    right. split; reflexivity.
  - assert (Hone : Forall (fun c => c = recv_call) [recv_call] /\
                   exists consumed,
                     ev :: rest = consumed ++ rest /\
                     (length [recv_call] = length consumed \/
                      (ev :: rest = consumed /\
                       length [recv_call] = S (length consumed)))).
    { split; [repeat constructor|]. exists [ev]. split; [reflexivity|].
      left. reflexivity. }
    destruct ev as [payload| |]; cbn [drain]; try exact Hone.
    destruct (json_loads env payload) as [data|]; [|exact Hone].
    destruct (dispatch env data ts) as [ts'|e]; [|exact Hone].
    specialize (IH ts').
    destruct (drain env rest ts') as [[r rest'] calls].
    destruct IH as [Hc (consumed & Hin & Hlen)].
    split; [constructor; [reflexivity | exact Hc]|].
    exists (Frame payload :: consumed). split; [cbn; f_equal; exact Hin|].
    cbn [length]. destruct Hlen as [Hl | [Hall Hl]].
    + left. f_equal. exact Hl.
    + right. split; [f_equal; exact Hall | f_equal; exact Hl].
Qed.

(** X24. Only [start()] and [stop()] change the connection. With a socket
    open, [poll_translations] keeps it, also when it raises: it only
    makes [recv()] calls, each taking the next waiting outcome, so that
    what is left is a tail of what was waiting; [send_audio] and
    [flush()] leave the socket as it is, also when the send raises. None
    of the three changes the configuration or the sample rate. *)
Theorem connection_kept_until_stop :
  forall (env : Env) (self : DashScopeRealtimeBackend.t) (ws : WebSocket)
         (chunk : bytes),
    _ws self = Some ws ->
    (let '(_, self', calls) := poll_translations env self in
     Forall (fun c => c = recv_call) calls /\
     config self' = config self /\ _samplerate self' = _samplerate self /\
     exists consumed rest,
       pending ws = consumed ++ rest /\
       _ws self' = Some (with_pending ws rest) /\
       (length calls = length consumed \/
        (rest = [] /\ length calls = S (length consumed)))) /\
    (let '(_, self', calls) := send_audio env chunk self in
     _ws self' = Some ws /\ config self' = config self /\
     _samplerate self' = _samplerate self /\
     (calls = [] \/ exists payload, calls = [send_call payload])) /\
    flush self = (Ok tt, self, []).
Proof.
  intros env self ws chunk Hws. split; [| split].
  - unfold poll_translations. rewrite Hws.
    pose proof (drain_consumes env (pending ws) []) as Hd.
    destruct (drain env (pending ws) []) as [[r rest] calls].
    destruct Hd as [Hc (consumed & Hin & Hlen)].
    split; [exact Hc|]. split; [reflexivity|]. split; [reflexivity|].
    exists consumed, rest. split; [exact Hin|]. split; [reflexivity|].
    destruct Hlen as [Hl | [Hall Hl]]; [left; exact Hl|].
    right. split; [|exact Hl].
    rewrite Hall in Hin.
    assert (E := f_equal (@length _) Hin). rewrite length_app in E.
    destruct rest; [reflexivity | cbn in E; lia].
  - unfold send_audio. rewrite Hws.
    destruct chunk as [|c chunk]; cbn [orb].
    + repeat split; [exact Hws | left; reflexivity].
    + unfold _next_event_id, _send_json. cbn [_ws with_counter]. rewrite Hws.
      repeat split; [exact Hws | right; eexists; reflexivity].
  - reflexivity.
Qed.

Lemma connection_kept_until_stop_witness :
  exists rest,
    _ws (snd (fst (poll_translations
                     Demo.env (Demo.client (Some Demo.quota_socket)))))
    = Some (with_pending Demo.quota_socket rest).
Proof.
  pose proof (proj1 (@connection_kept_until_stop
                       Demo.env (Demo.client (Some Demo.quota_socket))
                       Demo.quota_socket [] eq_refl)) as R.
  destruct R as (_ & _ & _ & consumed & rest & _ & Hws & _).
  exists rest. exact Hws.
Defined.

(** X25. No fragment is lost: every non-blank fragment that went through
    [add_history_entry] is still a piece of the transcript after any
    number of further fragments (as long as the transcript is not cleared
    or edited in between). *)
Theorem fragments_stay_in_transcript :
  forall (fragments : list str) (self : ApplicationController) (f : str),
    In f fragments -> strip f <> [] ->
    exists before after,
      _transcript_text (feed self fragments)
      = before ++ strip f ++ after.
Proof.
  induction fragments as [|g rest IH]; intros self f Hin Hf;
    [contradiction|].
  cbn [feed]. destruct Hin as [-> | Hin].
  - destruct (ReconcilerProps.reconcile_cases self f Hf)
      as (inc & HP' & _ & [u Hu] & _).
    destruct (feed_extends rest (fst (add_history_entry self f)))
      as [t Ht].
    exists u, t. rewrite Ht, HP', Hu, <- app_assoc. reflexivity.
  - apply IH; assumption.
Qed.

Lemma fragments_stay_in_transcript_witness :
  exists before after,
    _transcript_text
      (feed (mkController [] false)
            [lit "the cat sat"; lit " sat on the mat "; lit "done."])
    = before ++ strip (lit " sat on the mat ") ++ after.
Proof.
  apply (@fragments_stay_in_transcript
           [lit "the cat sat"; lit " sat on the mat "; lit "done."]
           (mkController [] false) (lit " sat on the mat ")
           (or_intror (or_introl eq_refl))
           ltac:(vm_compute; discriminate)).
Defined.

Lemma call_counter (env : Env) (self : DashScopeRealtimeBackend.t)
  (m : Lifecycle.method) :
  (_event_counter self <= _event_counter (Lifecycle.call env self m))%N.
Proof.
  destruct m as [|chunk| | |]; cbn [Lifecycle.call].
  - unfold start. destruct (negb _); [cbn; lia|].
    destruct (create_connection env _ _) as [ws|e]; [|cbn; lia].
    unfold _send_session_update, _next_event_id, _send_json. cbn. lia.
  - unfold send_audio. destruct (_ || _); [cbn; lia|].
    unfold _next_event_id, _send_json. cbn.
    destruct (_ws self); cbn; lia.
  - unfold poll_translations. destruct (_ws self) as [ws|]; [|cbn; lia].
    destruct (drain env (pending ws) []) as [[r rest] calls]. cbn. lia.
  - cbn. lia.
  - unfold stop. destruct (_ws self); cbn; lia.
Qed.

Lemma calls_counter (env : Env) (ms : list Lifecycle.method) :
  forall self,
    (_event_counter self
     <= _event_counter (fold_left (Lifecycle.call env) ms self))%N.
Proof.
  induction ms as [|m ms IH]; intros self; cbn [fold_left]; [lia|].
  pose proof (call_counter env self m). specialize (IH (Lifecycle.call env self m)).
  lia.
Qed.

(** X26. The event counter is never reset: whatever methods are called on
    a client and in whatever order, stopping and starting again
    included, the counter does not go down, so an identifier issued
    once is never issued again by the same object, whatever the clock
    reads. *)
Theorem event_id_never_reissued :
  forall (env : Env) (self : DashScopeRealtimeBackend.t)
         (ms : list Lifecycle.method),
    let (id, self1) := _next_event_id env self in
    let later := fold_left (Lifecycle.call env) ms self1 in
    (_event_counter self < _event_counter self1)%N /\
    (_event_counter self1 <= _event_counter later)%N /\
    fst (_next_event_id env later) <> id.
Proof.
  intros env self ms. unfold _next_event_id at 1.
  set (self1 := with_counter self (_event_counter self + 1)).
  cbn zeta. split; [cbn; lia|].
  pose proof (calls_counter env ms self1) as Hm.
  split; [exact Hm|].
  set (later := fold_left (Lifecycle.call env) ms self1) in *.
  intros Heq. unfold _next_event_id in Heq.
  cbn [fst with_counter _event_counter] in Heq.
  assert (H : dec (_event_counter later + 1) = dec (_event_counter self + 1)).
  { apply (@DashScopeMore.split_at_last
             (lit "event_" ++ dec (clock_ms env (_event_counter later + 1)))
             (lit "event_" ++ dec (clock_ms env (_event_counter self + 1))));
      [apply DashScopeMore.uint_chars_digits
      | apply DashScopeMore.uint_chars_digits |].
    rewrite <- !app_assoc. exact Heq. }
  apply DashScopeMore.dec_inj in H. cbn in Hm. lia.
Qed.

End FurtherProps.

(* ====================================================================== *)
(** ** The start/pause button *)
(* ====================================================================== *)

Module ButtonProps.
Import StreamingControl ButtonWiring.

(** X27. Once [attach_translator] has run, the window and the controller
    agree on whether streaming is on, and they still agree after every
    click on the start/pause button, also when a hook raises. While they
    agree and hooks are attached, a click is never ignored: it calls
    [start] when idle and [stop] when streaming, exactly once, and when
    the hook returns both sides flip. *)
Theorem button_follows_controller :
  forall (H : Type) (hooks : TranslatorHooks H) (app : Wiring.App) (h : H),
    agree (snd (attach_translator hooks app)) /\
    (agree app ->
     let '(r, app', _, evs) := click (Some hooks) app h in
     agree app' /\
     hook_calls evs
     = [if _is_streaming (Wiring.controller app)
        then hooks_stop_call else hooks_start_call] /\
     (r = Ok tt ->
      _is_streaming (Wiring.controller app')
      = negb (_is_streaming (Wiring.controller app)))).
Proof.
  intros H hooks app h. split; [reflexivity|].
  intros Ha. unfold agree in Ha. unfold click.
  unfold SubtitleMainWindow._toggle_start_pause. rewrite Ha.
  destruct (_is_streaming (Wiring.controller app)) eqn:E.
  - unfold _handle_pause. rewrite E. cbn [negb].
    destruct (hooks_stop hooks h) as [[[]|e] h'].
    + repeat split.
    + unfold agree. cbn. rewrite Ha, E. repeat split. discriminate.
  - unfold _handle_start. rewrite E.
    destruct (hooks_start hooks h) as [[[]|e] h'].
    + repeat split.
    + unfold agree. cbn. rewrite Ha, E. repeat split. discriminate.
Qed.

Lemma button_follows_controller_witness :
  agree (snd (attach_translator
                (mkHooks (fun n : nat => (Ok tt, S n))
                         (fun n : nat => (Ok tt, S n)))
                (Wiring.mkApp (mkController [] false)
                              (SubtitleMainWindow.mk [] false true true)))).
Proof.
  apply (proj1 (button_follows_controller
                  (mkHooks (fun n : nat => (Ok tt, S n))
                           (fun n : nat => (Ok tt, S n)))
                  (Wiring.mkApp (mkController [] false)
                                (SubtitleMainWindow.mk [] false true true))
                  0)).
Defined.

End ButtonProps.
